(** * Renosims: building surface visualizer (ApiMachine_2_works.py)

    A shallow embedding of the classification, aggregation, catalog and
    column-sort code of [src/ApiMachine_2_works.py], and the properties
    that its specification states about it.

    Numbers.  The program does no arithmetic on the numbers it receives:
    it compares [nz] with a tolerance, copies coordinates and areas, and
    converts table text back with [float].  A decoded JSON number is
    modelled by its exact rational value, and [inf] and [nan] are outside
    the model.  The rounding of [float] to a double matters in one
    place, the Area keys of [sortby]: there the order of two keys is
    stated for numbers that the rounding keeps apart
    ([float_keeps_apart]). *)

From Stdlib Require Import QArith ZArith Lia Lqa Ascii String Permutation Sorted.
From Stdlib Require HexadecimalN Qpower.
From stdpp Require Import base option list sorting gmap strings pretty.

Local Open Scope string_scope.
Local Open Scope list_scope.
Local Open Scope stdpp_scope.

(** ** Python values and exceptions *)

(** A decoded JSON number: a Python [int], or a Python [float] given by
    its value and by its [repr], the text that [str] returns for it (the
    digits are CPython's choice, not this program's). *)
Inductive number : Type :=
  | PyInt (z : Z)
  | PyFloat (q : Q) (repr : string).

Definition num_val (n : number) : Q :=
  match n with
  | PyInt z => inject_Z z
  | PyFloat q _ => q
  end.

(** [str(n)], which tkinter applies to every value of a table row. *)
Definition py_str (n : number) : string :=
  match n with
  | PyInt z => pretty z
  | PyFloat _ repr => repr
  end.

Global Instance number_inhabited : Inhabited number := populate (PyInt 0).

Inductive exn : Type :=
  | KeyError (key : string)
  | ValueError (text : string).

Inductive result (A : Type) : Type :=
  | Ok (a : A)
  | Raise (e : exn).
Arguments Ok {A} a.
Arguments Raise {A} e.

Definition bind {A B} (m : result A) (f : A -> result B) : result B :=
  match m with
  | Ok a => f a
  | Raise e => Raise e
  end.

Notation "x <- m ;; k" := (bind m (fun x => k))
  (at level 100, m at next level, right associativity).

(** [a < b] on Python numbers, by value. *)
Definition Qltb (a b : Q) : bool := negb (Qle_bool b a).

(** ** classify_surface (lines 32-38) *)

Inductive surface_type : Type := Roof | Wall | Floor.

Definition surface_name (s : surface_type) : string :=
  match s with
  | Roof => "Roof"
  | Wall => "Wall"
  | Floor => "Floor"
  end.

Global Instance surface_type_eq_dec : EqDecision surface_type.
Proof. solve_decision. Defined.

(** The default of the keyword argument [epsilon=1e-6]. *)
Definition epsilon_default : Q := 1 # 1000000.

Definition classify_surface (nz : Q) (epsilon : Q) : surface_type :=
  if Qltb epsilon nz then Roof
  else if Qltb nz (- epsilon) then Floor
  else Wall.

(** ** The decoded API response *)

(** A particle is a JSON object: a dictionary from field names to
    numbers.  A building is a JSON object of which the program reads the
    keys ['ehr'] and ['particles']; either may be absent. *)
Record building : Type := {
  ehr : option string;
  particles : option (list (gmap string number))
}.

(** What [response.json()] returned: a list of buildings, or any other
    JSON value. *)
Inductive api_data : Type :=
  | JsonList (buildings : list building)
  | JsonOther.

(** ** Aggregation state of visualize_data (lines 47-54) *)

(** One entry of [coords]: the six lists under the keys
    ['x'], ['y'], ['z'], ['i'], ['j'], ['k']. *)
Record buffers : Type := {
  cx : list number; cy : list number; cz : list number;
  ci : list nat; cj : list nat; ck : list nat
}.

Definition empty_buffers : buffers :=
  {| cx := []; cy := []; cz := []; ci := []; cj := []; ck := [] |}.

(** The dictionary [coords], with its keys in insertion order. *)
Record coords_dict : Type := {
  coords_Roof : buffers;
  coords_Wall : buffers;
  coords_Floor : buffers
}.

Definition initial_coords : coords_dict :=
  {| coords_Roof := empty_buffers;
     coords_Wall := empty_buffers;
     coords_Floor := empty_buffers |}.

Definition coords_get (coords : coords_dict) (s : surface_type) : buffers :=
  match s with
  | Roof => coords_Roof coords
  | Wall => coords_Wall coords
  | Floor => coords_Floor coords
  end.

Definition coords_set (coords : coords_dict) (s : surface_type) (c : buffers)
  : coords_dict :=
  match s with
  | Roof => {| coords_Roof := c; coords_Wall := coords_Wall coords;
               coords_Floor := coords_Floor coords |}
  | Wall => {| coords_Roof := coords_Roof coords; coords_Wall := c;
               coords_Floor := coords_Floor coords |}
  | Floor => {| coords_Roof := coords_Roof coords;
                coords_Wall := coords_Wall coords; coords_Floor := c |}
  end.

Definition coords_items (coords : coords_dict) : list (surface_type * buffers) :=
  [(Roof, coords_Roof coords); (Wall, coords_Wall coords);
   (Floor, coords_Floor coords)].

Definition colors (s : surface_type) : string :=
  match s with
  | Roof => "red"
  | Wall => "gray"
  | Floor => "green"
  end.

(** One element of [surface_info_list]: the dictionary with the keys
    ['Building ID'], ['Surface Type'], ['Area'] and ['Index']. *)
Record surface_info : Type := {
  Building_ID : string;
  Surface_Type : surface_type;
  Area : number;
  Index : nat
}.

(** ** The main loop of visualize_data (lines 56-86) *)

(** [particle[key]]. *)
Definition getitem (particle : gmap string number) (key : string)
  : result number :=
  match particle !! key with
  | Some v => Ok v
  | None => Raise (KeyError key)
  end.

(** The body of the inner loop.  The record is appended before the
    coordinates are read. *)
Definition process_particle (building_id : string) (idx : nat)
    (particle : gmap string number)
    (st : list surface_info * coords_dict)
  : result (list surface_info * coords_dict) :=
  let '(surface_info_list, coords) := st in
  let nz := default (PyInt 0) (particle !! "nz") in
  let area := default (PyInt 0) (particle !! "area") in
  let surface_type := classify_surface (num_val nz) epsilon_default in
  let surface_info :=
    {| Building_ID := building_id; Surface_Type := surface_type;
       Area := area; Index := idx |} in
  let surface_info_list := surface_info_list ++ [surface_info] in
  let c := coords_get coords surface_type in
  x0 <- getitem particle "x0" ;;
  x1 <- getitem particle "x1" ;;
  x2 <- getitem particle "x2" ;;
  y0 <- getitem particle "y0" ;;
  y1 <- getitem particle "y1" ;;
  y2 <- getitem particle "y2" ;;
  z0 <- getitem particle "z0" ;;
  z1 <- getitem particle "z1" ;;
  z2 <- getitem particle "z2" ;;
  let idx0 := length (cx c) in
  let c := {| cx := cx c ++ [x0; x1; x2];
              cy := cy c ++ [y0; y1; y2];
              cz := cz c ++ [z0; z1; z2];
              ci := ci c ++ [idx0];
              cj := cj c ++ [idx0 + 1];
              ck := ck c ++ [idx0 + 2] |} in
  Ok (surface_info_list, coords_set coords surface_type c).

(** [for idx, particle in enumerate(particles)], from index [idx] on. *)
Fixpoint process_particles (building_id : string) (idx : nat)
    (particles : list (gmap string number))
    (st : list surface_info * coords_dict)
  : result (list surface_info * coords_dict) :=
  match particles with
  | [] => Ok st
  | particle :: rest =>
      st' <- process_particle building_id idx particle st ;;
      process_particles building_id (S idx) rest st'
  end.

Definition process_building (building_data : building)
    (st : list surface_info * coords_dict)
  : result (list surface_info * coords_dict) :=
  let building_id := default "Unknown" (ehr building_data) in
  let particles := default [] (particles building_data) in
  process_particles building_id 0 particles st.

(** [for building_data in data]. *)
Fixpoint process_buildings (data : list building)
    (st : list surface_info * coords_dict)
  : result (list surface_info * coords_dict) :=
  match data with
  | [] => Ok st
  | building_data :: rest =>
      st' <- process_building building_data st ;;
      process_buildings rest st'
  end.

(** Lines 47-86: the loop run from the empty lists. *)
Definition collect (data : list building)
  : result (list surface_info * coords_dict) :=
  process_buildings data ([], initial_coords).

(** ** The table widget (ttk.Treeview) *)

(** The three columns that [main] declares. *)
Inductive column : Type := Col_Building_ID | Col_Surface_Type | Col_Area.

Global Instance column_eq_dec : EqDecision column.
Proof. solve_decision. Defined.

Definition column_name (col : column) : string :=
  match col with
  | Col_Building_ID => "Building ID"
  | Col_Surface_Type => "Surface Type"
  | Col_Area => "Area"
  end.

(** A row: its item identifier and the text of its three cells.  Tk
    keeps every cell as text. *)
Record tree_item : Type := {
  iid : string;
  values : string * string * string
}.

(** The widget: its rows in display order, the counter from which Tk
    names new rows, and for every column the [descending] flag that the
    command bound to its header passes to [sortby]. *)
Record Treeview : Type := {
  tv_children : list tree_item;
  tv_serial : N;
  tv_heading : column -> bool
}.

Definition get_children (tree : Treeview) : list string :=
  map iid (tv_children tree).

Definition has_iid (item : string) (it : tree_item) : bool :=
  String.eqb (iid it) item.

Definition cell (vals : string * string * string) (col : column) : string :=
  match col with
  | Col_Building_ID => vals.1.1
  | Col_Surface_Type => vals.1.2
  | Col_Area => vals.2
  end.

(** [tree.set(item, col)]: the text of one cell. *)
Definition tree_set (tree : Treeview) (item : string) (col : column) : string :=
  match find (has_iid item) (tv_children tree) with
  | Some it => cell (values it) col
  | None => EmptyString
  end.

(** [tree.delete(item)]. *)
Definition tree_delete (tree : Treeview) (item : string) : Treeview :=
  {| tv_children :=
       List.filter (fun it => negb (has_iid item it)) (tv_children tree);
     tv_serial := tv_serial tree;
     tv_heading := tv_heading tree |}.

Fixpoint hex_upper (d : Hexadecimal.uint) : string :=
  match d with
  | Hexadecimal.Nil => EmptyString
  | Hexadecimal.D0 d => String "0"%char (hex_upper d)
  | Hexadecimal.D1 d => String "1"%char (hex_upper d)
  | Hexadecimal.D2 d => String "2"%char (hex_upper d)
  | Hexadecimal.D3 d => String "3"%char (hex_upper d)
  | Hexadecimal.D4 d => String "4"%char (hex_upper d)
  | Hexadecimal.D5 d => String "5"%char (hex_upper d)
  | Hexadecimal.D6 d => String "6"%char (hex_upper d)
  | Hexadecimal.D7 d => String "7"%char (hex_upper d)
  | Hexadecimal.D8 d => String "8"%char (hex_upper d)
  | Hexadecimal.D9 d => String "9"%char (hex_upper d)
  | Hexadecimal.Da d => String "A"%char (hex_upper d)
  | Hexadecimal.Db d => String "B"%char (hex_upper d)
  | Hexadecimal.Dc d => String "C"%char (hex_upper d)
  | Hexadecimal.Dd d => String "D"%char (hex_upper d)
  | Hexadecimal.De d => String "E"%char (hex_upper d)
  | Hexadecimal.Df d => String "F"%char (hex_upper d)
  end.

(** The identifier Tk gives a row inserted without one: ["I%03X"] of the
    incremented counter. *)
Definition item_id (serial : N) : string :=
  let digits := hex_upper (N.to_hex_uint serial) in
  String "I"%char (String.append
                (string_of_list_ascii
                   (replicate (3 - String.length digits) "0"%char))
                digits).

(** [tree.insert('', 'end', values=vals)]. *)
Definition tree_insert (tree : Treeview) (vals : string * string * string)
  : Treeview :=
  let serial := N.succ (tv_serial tree) in
  {| tv_children := tv_children tree ++ [{| iid := item_id serial; values := vals |}];
     tv_serial := serial;
     tv_heading := tv_heading tree |}.

(** [l.insert(index, x)] on the list of rows: at the end when [index]
    is past it. *)
Definition insert_at {A} (index : nat) (x : A) (l : list A) : list A :=
  take index l ++ x :: drop index l.

(** [tree.move(item, '', index)]: detach the row and put it back at
    position [index] of the remaining rows.  [sortby] only moves rows of
    the widget; for an unknown identifier nothing moves. *)
Definition tree_move (tree : Treeview) (item : string) (index : nat) : Treeview :=
  match find (has_iid item) (tv_children tree) with
  | Some it =>
      {| tv_children :=
           insert_at index it
             (List.filter (fun it' => negb (has_iid item it')) (tv_children tree));
         tv_serial := tv_serial tree;
         tv_heading := tv_heading tree |}
  | None => tree
  end.

(** [tree.heading(col, command=lambda: sortby(tree, col, flag))]. *)
Definition tree_heading (tree : Treeview) (col : column) (flag : bool) : Treeview :=
  {| tv_children := tv_children tree;
     tv_serial := tv_serial tree;
     tv_heading := fun c => if decide (c = col) then flag else tv_heading tree c |}.

(** ** The rest of visualize_data (lines 88-132) *)

(** The arguments of one [go.Mesh3d] trace. *)
Record mesh : Type := {
  mesh_x : list number; mesh_y : list number; mesh_z : list number;
  mesh_i : list nat; mesh_j : list nat; mesh_k : list nat;
  mesh_opacity : Q;
  mesh_color : string;
  mesh_name : string;
  mesh_showscale : bool
}.

Definition Mesh3d (surface_type : surface_type) (c : buffers) : mesh :=
  {| mesh_x := cx c; mesh_y := cy c; mesh_z := cz c;
     mesh_i := ci c; mesh_j := cj c; mesh_k := ck c;
     mesh_opacity := 1 # 2;
     mesh_color := colors surface_type;
     mesh_name := surface_name surface_type;
     mesh_showscale := false |}.

(** Lines 95-110: one trace for every class whose ['x'] list is not
    empty. *)
Definition make_meshes (coords : coords_dict) : list mesh :=
  flat_map (fun '(surface_type, c) =>
              match cx c with
              | [] => []
              | _ :: _ => [Mesh3d surface_type c]
              end)
           (coords_items coords).

Definition row_of (surface_info : surface_info) : string * string * string :=
  (Building_ID surface_info,
   surface_name (Surface_Type surface_info),
   py_str (Area surface_info)).

(** Lines 89-92: empty the table, then one row per record. *)
Definition update_treeview (surface_info_list : list surface_info)
    (treeview : Treeview) : Treeview :=
  let treeview := fold_left tree_delete (get_children treeview) treeview in
  fold_left (fun tv surface_info => tree_insert tv (row_of surface_info))
            surface_info_list treeview.

(** How a call of [visualize_data] ends: with an exception, with a
    message printed and nothing drawn, or with a figure shown. *)
Inductive outcome : Type :=
  | Raised (e : exn)
  | Printed (message : string)
  | Shown (figure : list mesh).

(** [visualize_data(data, treeview)]: the widget after the call and how
    the call ended. *)
Definition visualize_data (data : api_data) (treeview : Treeview)
  : Treeview * outcome :=
  match data with
  | JsonOther => (treeview, Printed "Unexpected data format received from API.")
  | JsonList data =>
      match collect data with
      | Raise e => (treeview, Raised e)
      | Ok (surface_info_list, coords) =>
          let treeview := update_treeview surface_info_list treeview in
          match make_meshes coords with
          | [] => (treeview, Printed "No particle data available to visualize.")
          | meshes => (treeview, Shown meshes)
          end
      end
  end.

(** ** float(text)

    The decimal literals that [float] accepts: an optional sign, digits
    with an optional fraction, an optional exponent.  Surrounding blanks,
    underscores, [inf] and [nan], which Python accepts too, are not
    covered (no number that [py_str] prints has them).

    The result is the exact value of the literal.  Python's [float] is
    this value rounded to the nearest double: equal values stay equal,
    and the order of two values is kept where [float_keeps_apart] below
    holds; two values that lie closer together can become one key. *)

Definition digit_of (c : ascii) : option N :=
  let n := N_of_ascii c in
  if ((48 <=? n) && (n <=? 57))%N then Some (n - 48)%N else None.

(** The leading digits of [s] and what follows them. *)
Fixpoint span_digits (s : string) : list N * string :=
  match s with
  | EmptyString => ([], s)
  | String c rest =>
      match digit_of c with
      | Some d => let '(ds, s') := span_digits rest in (d :: ds, s')
      | None => ([], s)
      end
  end.

Definition N_of_digits (ds : list N) : N :=
  fold_left (fun acc d => 10 * acc + d)%N ds 0%N.

Definition split_sign (s : string) : bool * string :=
  match s with
  | String "-"%char rest => (true, rest)
  | String "+"%char rest => (false, rest)
  | _ => (false, s)
  end.

Definition signed (negative : bool) (n : N) : Z :=
  if negative then (- Z.of_N n)%Z else Z.of_N n.

(** The exponent part: nothing, or [e] or [E] and a signed integer. *)
Definition parse_exponent (s : string) : option Z :=
  match s with
  | EmptyString => Some 0%Z
  | String c rest =>
      if (Ascii.eqb c "e" || Ascii.eqb c "E")%char then
        let '(negative, s1) := split_sign rest in
        match span_digits s1 with
        | (d :: ds, EmptyString) =>
            Some (signed negative (N_of_digits (d :: ds)))
        | _ => None
        end
      else None
  end.

Definition float (text : string) : result Q :=
  let '(negative, s1) := split_sign text in
  let '(int_digits, s2) := span_digits s1 in
  let '(frac_digits, s3) :=
    match s2 with
    | String "."%char rest => span_digits rest
    | _ => ([], s2)
    end in
  match int_digits ++ frac_digits, parse_exponent s3 with
  | d :: ds, Some e =>
      Ok (inject_Z (signed negative (N_of_digits (d :: ds)))
          * inject_Z 10 ^ (e - Z.of_nat (length frac_digits)))%Q
  | _, _ => Raise (ValueError text)
  end.

(** ** list.sort on (key, item) tuples *)

(** [a < b] on two-element tuples: the first components decide unless
    they are equal ([==]), then the second (identifier) components do. *)
Definition tuple_lt {K} (eqb ltb : K -> K -> bool) (a b : K * string) : bool :=
  if eqb a.1 b.1 then String.ltb a.2 b.2 else ltb a.1 b.1.

(** Insertion of [x], which stood before all of [l], in front of the
    first element that is not smaller than it. *)
Fixpoint insert_sorted {A} (lt : A -> A -> bool) (x : A) (l : list A) : list A :=
  match l with
  | [] => [x]
  | y :: l' => if lt y x then y :: insert_sorted lt x l' else x :: l
  end.

(** A stable sort that, like Python's, only asks [<]. *)
Definition stable_sort {A} (lt : A -> A -> bool) (l : list A) : list A :=
  foldr (insert_sorted lt) [] l.

(** [l.sort(reverse=reverse)]: CPython reverses the list, sorts it stably
    and reverses the result. *)
Definition list_sort {A} (lt : A -> A -> bool) (reverse : bool) (l : list A)
  : list A :=
  if reverse then rev (stable_sort lt (rev l)) else stable_sort lt l.

(** ** sortby (lines 135-147) *)

(** Line 140: [[(float(item[0]), item[1]) for item in data]]. *)
Fixpoint float_keys (data : list (string * string)) : result (list (Q * string)) :=
  match data with
  | [] => Ok []
  | item :: rest =>
      key <- float item.1 ;;
      rest' <- float_keys rest ;;
      Ok ((key, item.2) :: rest')
  end.

(** Lines 137-142: the item identifiers in sorted order. *)
Definition sorted_items (tree : Treeview) (col : column) (descending : bool)
  : result (list string) :=
  let data := map (fun child => (tree_set tree child col, child))
                  (get_children tree) in
  match col with
  | Col_Area =>
      data <- float_keys data ;;
      Ok (map snd (list_sort (tuple_lt Qeq_bool Qltb) descending data))
  | _ =>
      Ok (map snd (list_sort (tuple_lt String.eqb String.ltb) descending data))
  end.

(** Lines 144-145: [for idx, item in enumerate(data): tree.move(...)],
    from index [idx] on. *)
Fixpoint move_all (tree : Treeview) (idx : nat) (items : list string) : Treeview :=
  match items with
  | [] => tree
  | item :: rest => move_all (tree_move tree item idx) (S idx) rest
  end.

Definition sortby (tree : Treeview) (col : column) (descending : bool)
  : result Treeview :=
  items <- sorted_items tree col descending ;;
  let tree := move_all tree 0 items in
  Ok (tree_heading tree col (negb descending)).

(** ** Vocabulary of the statements *)

(** The nine fields that the loop reads with [particle[...]], in the
    order in which it reads them. *)
Definition coordinate_keys : list string :=
  ["x0"; "x1"; "x2"; "y0"; "y1"; "y2"; "z0"; "z1"; "z2"].

Definition has_coordinates (particle : gmap string number) : Prop :=
  Forall (fun key => is_Some (particle !! key)) coordinate_keys.

Global Instance has_coordinates_dec particle : Decision (has_coordinates particle).
Proof. unfold has_coordinates. apply _. Defined.

(** The triangles of a building, none when the key ['particles'] is
    absent. *)
Definition triangles (b : building) : list (gmap string number) :=
  default [] (particles b).

(** Every triangle of every building carries its nine coordinates. *)
Definition well_formed (data : list building) : Prop :=
  Forall (fun b => Forall has_coordinates (triangles b)) data.

Global Instance well_formed_dec data : Decision (well_formed data).
Proof. unfold well_formed. apply _. Defined.

(** All triangles of the input, in building order, then triangle order. *)
Definition all_triangles (data : list building) : list (gmap string number) :=
  flat_map triangles data.

(** The class that the loop assigns to a particle. *)
Definition surface_of (particle : gmap string number) : surface_type :=
  classify_surface (num_val (default (PyInt 0) (particle !! "nz")))
                   epsilon_default.

(** The triangles assigned to class [s], in input order. *)
Definition triangles_of_class (s : surface_type) (data : list building)
  : list (gmap string number) :=
  filter (fun particle => surface_of particle = s) (all_triangles data).

(** The number of triangles in the buildings before building number [b]. *)
Definition offset (data : list building) (b : nat) : nat :=
  length (all_triangles (take b data)).

(** The figure that a call showed, empty when it showed none. *)
Definition figure_of (o : outcome) : list mesh :=
  match o with
  | Shown figure => figure
  | _ => []
  end.

(** [a] stands somewhere before [b] in [l]. *)
Definition before {A} (a b : A) (l : list A) : Prop :=
  exists l1 l2 l3, l = l1 ++ a :: l2 ++ b :: l3.

(** The rich-comparison laws that [list.sort] relies on: [eqb] ([==]) is
    an equivalence and [ltb] ([<]) a strict total order on its classes. *)
Class KeyOrder {K} (eqb ltb : K -> K -> bool) : Prop := {
  key_eqb_refl a : eqb a a = true;
  key_eqb_sym a b : eqb a b = true -> eqb b a = true;
  key_eqb_trans a b c : eqb a b = true -> eqb b c = true -> eqb a c = true;
  key_ltb_irrefl a b : eqb a b = true -> ltb a b = false;
  key_ltb_trans a b c : ltb a b = true -> ltb b c = true -> ltb a c = true;
  key_ltb_total a b : eqb a b = false -> ltb a b = false -> ltb b a = true;
  key_ltb_eqb_l a b c : eqb a b = true -> ltb a c = ltb b c;
  key_ltb_eqb_r a b c : eqb a b = true -> ltb c a = ltb c b
}.

(** The text of the cell of [it] in column [col]. *)
Definition cell_of (col : column) (it : tree_item) : string :=
  cell (values it) col.

(** The sort keys of two rows compare [<]: as numbers in the Area
    column, as text in the others. *)
Definition key_lt (col : column) (r1 r2 : tree_item) : Prop :=
  match col with
  | Col_Area =>
      exists a b, float (cell_of col r1) = Ok a /\ float (cell_of col r2) = Ok b
                  /\ (a < b)%Q
  | _ => String.ltb (cell_of col r1) (cell_of col r2) = true
  end.


(** A finite double: [m * 2^e] with [|m| < 2^53] and
    [-1074 <= e <= 971]. *)
Definition is_double (q : Q) : Prop :=
  exists m e : Z,
    (Z.abs m < 2 ^ 53)%Z /\ (-1074 <= e <= 971)%Z /\
    (q == inject_Z m * 2 ^ e)%Q.

(** Two numbers that rounding to the nearest double keeps in their
    order: two different doubles lie from [a] to [b], the ends included.
    Rounding is monotone and leaves a double as it is, so the key of [a]
    is at most the first of them and the key of [b] at least the
    second. *)
Definition float_keeps_apart (a b : Q) : Prop :=
  exists d1 d2,
    is_double d1 /\ is_double d2 /\ (a <= d1)%Q /\ (d1 < d2)%Q /\ (d2 <= b)%Q.

(** The sort keys of two rows compare [<] as Python computes them: in
    the Area column the numbers read from the cells are kept apart by
    the rounding of [float]; in the other columns the texts compare. *)
Definition key_lt_float (col : column) (r1 r2 : tree_item) : Prop :=
  match col with
  | Col_Area =>
      exists a b, float (cell_of col r1) = Ok a /\ float (cell_of col r2) = Ok b
                  /\ float_keeps_apart a b
  | _ => String.ltb (cell_of col r1) (cell_of col r2) = true
  end.

(** Every cell of the Area column is a decimal literal. *)
Definition numeric_areas (tree : Treeview) : Prop :=
  Forall (fun it => exists q, float (cell_of Col_Area it) = Ok q)
         (tv_children tree).


(** ** Closed forms of the loop, used in the proofs *)

(** The record that the loop appends for a particle. *)
Definition info_of (building_id : string) (idx : nat)
    (particle : gmap string number) : surface_info :=
  {| Building_ID := building_id;
     Surface_Type := surface_of particle;
     Area := default (PyInt 0) (particle !! "area");
     Index := idx |}.

(** The records of one building. *)
Definition records (b : building) : list surface_info :=
  imap (info_of (default "Unknown" (ehr b))) (triangles b).

(** The buffer extended by the triangle of a particle that has its
    coordinates. *)
Definition push_triangle (c : buffers) (particle : gmap string number) : buffers :=
  {| cx := cx c ++ [particle !!! "x0"; particle !!! "x1"; particle !!! "x2"];
     cy := cy c ++ [particle !!! "y0"; particle !!! "y1"; particle !!! "y2"];
     cz := cz c ++ [particle !!! "z0"; particle !!! "z1"; particle !!! "z2"];
     ci := ci c ++ [length (cx c)];
     cj := cj c ++ [length (cx c) + 1];
     ck := ck c ++ [length (cx c) + 2] |}.

Definition push (coords : coords_dict) (particle : gmap string number)
  : coords_dict :=
  coords_set coords (surface_of particle)
             (push_triangle (coords_get coords (surface_of particle)) particle).

(** The triangle of [particle] is number [t] of the buffer [c]: its
    index triple is [(3t, 3t+1, 3t+2)] and the three vertices at these
    positions are its own. *)
Definition triangle_at (c : buffers) (t : nat) (particle : gmap string number)
  : Prop :=
  (ci c !! t = Some (3 * t) /\ cj c !! t = Some (3 * t + 1) /\
   ck c !! t = Some (3 * t + 2)) /\
  (is_Some (cx c !! (3 * t)) /\ is_Some (cx c !! (3 * t + 1)) /\
   is_Some (cx c !! (3 * t + 2))) /\
  (cx c !! (3 * t) = particle !! "x0" /\ cx c !! (3 * t + 1) = particle !! "x1" /\
   cx c !! (3 * t + 2) = particle !! "x2") /\
  (cy c !! (3 * t) = particle !! "y0" /\ cy c !! (3 * t + 1) = particle !! "y1" /\
   cy c !! (3 * t + 2) = particle !! "y2") /\
  (cz c !! (3 * t) = particle !! "z0" /\ cz c !! (3 * t + 1) = particle !! "z1" /\
   cz c !! (3 * t + 2) = particle !! "z2").

(** A trace carries the lists of the buffer of its class. *)
Definition mesh_of_buffer (m : mesh) (s : surface_type) (c : buffers) : Prop :=
  mesh_name m = surface_name s /\
  mesh_x m = cx c /\ mesh_y m = cy c /\ mesh_z m = cz c /\
  mesh_i m = ci c /\ mesh_j m = cj c /\ mesh_k m = ck c.

(** ** Sample inputs *)

(** The nine coordinates of a unit triangle in the plane [z = 0]. *)
Definition unit_triangle : gmap string number :=
  list_to_map
    [("x0", PyInt 0); ("y0", PyInt 0); ("z0", PyInt 0);
     ("x1", PyInt 1); ("y1", PyInt 0); ("z1", PyInt 0);
     ("x2", PyInt 0); ("y2", PyInt 1); ("z2", PyInt 0)].

Definition roof_particle : gmap string number :=
  <["nz" := PyFloat (9 # 10) "0.9"]> (<["area" := PyFloat 4 "4.0"]> unit_triangle).

Definition floor_particle : gmap string number :=
  <["nz" := PyFloat (- 9 # 10) "-0.9"]> (<["area" := PyFloat 4 "4.0"]> unit_triangle).

(** A particle without ['area'], and one without ['x1']. *)
Definition no_area_particle : gmap string number :=
  <["nz" := PyFloat (9 # 10) "0.9"]> unit_triangle.

Definition no_x1_particle : gmap string number := delete "x1" roof_particle.

Definition one_roof : list building :=
  [{| ehr := Some "B1"; particles := Some [roof_particle] |}].

Definition roof_and_floor : list building :=
  [{| ehr := Some "B1"; particles := Some [roof_particle; floor_particle] |}].

Definition missing_area : list building :=
  [{| ehr := Some "B1"; particles := Some [no_area_particle] |}].

Definition missing_x1 : list building :=
  [{| ehr := Some "B1"; particles := Some [roof_particle; no_x1_particle] |}].

(** A building without ['ehr'] whose only triangle has neither ['nz']
    nor ['area'], after a building without ['particles']. *)
Definition anonymous : list building :=
  [{| ehr := Some "B0"; particles := None |};
   {| ehr := None; particles := Some [unit_triangle] |}].

Definition empty_tree : Treeview :=
  {| tv_children := []; tv_serial := 0; tv_heading := fun _ => false |}.

Definition one_row_tree : Treeview :=
  {| tv_children := [{| iid := "I001"; values := ("B7", "Wall", "2.5") |}];
     tv_serial := 1;
     tv_heading := fun _ => false |}.

(** ** Closed forms of the sort, used in the proofs *)

(** [b] is not smaller than [a]: in a list sorted with [lt], [a] may
    stand before [b]. *)
Definition not_after {A} (lt : A -> A -> bool) (a b : A) : Prop :=
  lt b a = false.

(** The number in the Area cell of a row. *)
Definition area_key (it : tree_item) : Q :=
  match float (cell_of Col_Area it) with
  | Ok q => q
  | Raise _ => 0
  end.

(** The comparison of the tuples [(key, item)] of two rows. *)
Definition row_ltb (col : column) (r1 r2 : tree_item) : bool :=
  match col with
  | Col_Area =>
      tuple_lt Qeq_bool Qltb (area_key r1, iid r1) (area_key r2, iid r2)
  | _ =>
      tuple_lt String.eqb String.ltb
               (cell_of col r1, iid r1) (cell_of col r2, iid r2)
  end.

(** ** Sample tables *)

(** Two rows with the same area. *)
Definition tie_first : tree_item :=
  {| iid := "I001"; values := ("B1", "Roof", "4.0") |}.

Definition tie_second : tree_item :=
  {| iid := "I002"; values := ("B2", "Wall", "4.0") |}.

Definition tie_tree : Treeview :=
  {| tv_children := [tie_first; tie_second];
     tv_serial := 2;
     tv_heading := fun _ => false |}.

(** The same rows in the other order, as a descending sort leaves
    them. *)
Definition tie_tree_swapped : Treeview :=
  {| tv_children := [tie_second; tie_first];
     tv_serial := 2;
     tv_heading := fun _ => false |}.

(** Areas 10 and 9, the 10 first. *)
Definition row_ten : tree_item :=
  {| iid := "I001"; values := ("10", "Roof", "10") |}.

Definition row_nine : tree_item :=
  {| iid := "I002"; values := ("9", "Roof", "9") |}.

(** Areas 12.35 and 12.34, no doubles themselves. *)
Definition row_1235 : tree_item :=
  {| iid := "I001"; values := ("B1", "Roof", "12.35") |}.

Definition row_1234 : tree_item :=
  {| iid := "I002"; values := ("B1", "Wall", "12.34") |}.

Definition ten_nine_tree : Treeview :=
  {| tv_children := [row_ten; row_nine];
     tv_serial := 2;
     tv_heading := fun _ => false |}.

(** * Further vocabulary *)

(** The classes in the order of the normals that give them: downward,
    sideways, upward. *)
Definition surface_rank (s : surface_type) : nat :=
  match s with
  | Floor => 0
  | Wall => 1
  | Roof => 2
  end.

(** The first coordinate, in reading order, that a particle lacks. *)
Definition first_missing (particle : gmap string number) : option string :=
  List.find (fun key => bool_decide (particle !! key = None)) coordinate_keys.

(** The hexadecimal digits [d] with [k] zeros in front: what ["%03X"]
    prints for a number of fewer than three digits. *)
Definition zeros_then (k : nat) (d : Hexadecimal.uint) : Hexadecimal.uint :=
  Nat.iter k Hexadecimal.D0 d.

(** ** Further sample inputs *)

(** The two triangles of [roof_and_floor], one building each. *)
Definition roof_then_floor : list building :=
  [{| ehr := Some "B1"; particles := Some [roof_particle] |};
   {| ehr := Some "B2"; particles := Some [floor_particle] |}].

(** A building whose second triangle lacks ['x1'] and a building whose
    triangle lacks ['z2'] and ['y0']. *)
Definition two_deficient : list building :=
  [{| ehr := Some "B1"; particles := Some [roof_particle; no_x1_particle] |};
   {| ehr := Some "B2";
      particles := Some [delete "z2" (delete "y0" roof_particle)] |}].

(** ** Clicking a column header (lines 147 and 172) *)

(** [main] binds to every header the command [sortby(treeview, c,
    False)], and [sortby] rebinds the header of the column it sorted to
    [sortby(tree, col, int(not descending))]: a click runs [sortby] with
    the flag that the header keeps. *)
Definition main_treeview : Treeview :=
  {| tv_children := []; tv_serial := 0; tv_heading := fun _ => false |}.

Definition heading_command (tree : Treeview) (col : column) : result Treeview :=
  sortby tree col (tv_heading tree col).

(** The text that the table shows for the area of a particle reads back
    as a number. *)
Definition readable_area (particle : gmap string number) : Prop :=
  exists q, float (py_str (default (PyInt 0) (particle !! "area"))) = Ok q.

(** ** The button handler of main (lines 182-195)

    The text of the entry is modelled as ASCII text. *)

(** [c.isspace()]: tab to carriage return, the four separators, space. *)
Definition py_isspace (c : ascii) : bool :=
  let n := N_of_ascii c in
  (((9 <=? n) && (n <=? 13)) || ((28 <=? n) && (n <=? 32)))%N.

Fixpoint lstrip (s : string) : string :=
  match s with
  | EmptyString => EmptyString
  | String c rest => if py_isspace c then lstrip rest else s
  end.

Fixpoint rstrip (s : string) : string :=
  match s with
  | EmptyString => EmptyString
  | String c rest =>
      match rstrip rest with
      | EmptyString => if py_isspace c then EmptyString else String c EmptyString
      | kept => String c kept
      end
  end.

(** [s.strip()]. *)
Definition strip (s : string) : string := rstrip (lstrip s).

(** [s.split(sep)] for a separator of one character: the pieces between
    the separators, always at least one. *)
Fixpoint str_split (sep : ascii) (s : string) : list string :=
  match s with
  | EmptyString => [EmptyString]
  | String c rest =>
      if Ascii.eqb c sep then EmptyString :: str_split sep rest
      else match str_split sep rest with
           | piece :: pieces => String c piece :: pieces
           | [] => [String c EmptyString]
           end
  end.

(** Line 185: [[num.strip() for num in user_input.split(',') if num.strip()]]. *)
Definition parse_user_input (user_input : string) : list string :=
  filter (fun num => num <> EmptyString)
         (map strip (str_split ","%char user_input)).

(** What [get_data_from_api] returns: [None] after a failed request, or
    the decoded body of the response, of which only the truth value
    matters when it is not a list. *)
Inductive api_reply : Type :=
  | ReplyNone
  | ReplyList (buildings : list building)
  | ReplyOther (truthy : bool).

(** [if data:]. *)
Definition truthy (data : api_reply) : bool :=
  match data with
  | ReplyNone => false
  | ReplyList [] => false
  | ReplyList (_ :: _) => true
  | ReplyOther b => b
  end.

Definition reply_data (data : api_reply) : api_data :=
  match data with
  | ReplyList buildings => JsonList buildings
  | _ => JsonOther
  end.

(** [on_button_click], for the text of the entry, with the request to
    the server as a parameter. *)
Definition on_button_click (get_data_from_api : list string -> api_reply)
    (user_input : string) (treeview : Treeview) : Treeview * outcome :=
  match user_input with
  | EmptyString => (treeview, Printed "No input provided.")
  | _ =>
      match parse_user_input user_input with
      | [] => (treeview, Printed "No valid numbers provided.")
      | user_numbers =>
          let data := get_data_from_api user_numbers in
          if truthy data then visualize_data (reply_data data) treeview
          else (treeview, Printed "No data received from the API.")
      end
  end.

(** The first, the last character of a text is blank. *)
Definition starts_blank (s : string) : bool :=
  match s with
  | EmptyString => false
  | String c _ => py_isspace c
  end.

Fixpoint ends_blank (s : string) : bool :=
  match s with
  | EmptyString => false
  | String c EmptyString => py_isspace c
  | String _ rest => ends_blank rest
  end.

(** A number as the server gets it: not empty, without a comma, without
    a blank at either end. *)
Definition clean_number (num : string) : Prop :=
  num <> EmptyString /\
  ~ In ","%char (list_ascii_of_string num) /\
  starts_blank num = false /\ ends_blank num = false.

(** A text of ASCII characters, the texts for which [strip] above is
    Python's. *)
Definition ascii_text (s : string) : Prop :=
  Forall (fun c => (N_of_ascii c < 128)%N) (list_ascii_of_string s).

(** A text of commas and blanks only. *)
Definition only_commas_and_blanks (s : string) : Prop :=
  Forall (fun c => c = ","%char \/ py_isspace c = true) (list_ascii_of_string s).

(** A server that is down, and one that answers with one roof. *)
Definition server_down (user_numbers : list string) : api_reply := ReplyNone.

Definition server_one_roof (user_numbers : list string) : api_reply :=
  ReplyList one_roof.

(** * Properties *)

(** ** The classifier *)

Lemma Qltb_lt a b : Qltb a b = true <-> (a < b)%Q.
Proof.
  unfold Qltb. rewrite negb_true_iff, <- not_true_iff_false, Qle_bool_iff.
  split; [apply Qnot_le_lt | apply Qlt_not_le].
Qed.

Lemma Qltb_ge a b : Qltb a b = false <-> (b <= a)%Q.
Proof. unfold Qltb. rewrite negb_false_iff. apply Qle_bool_iff. Qed.

Section Classifier.
Variable epsilon : Q.

Lemma classify_Roof nz :
  classify_surface nz epsilon = Roof <-> (epsilon < nz)%Q.
Proof.
  unfold classify_surface. rewrite <- Qltb_lt.
  destruct (Qltb epsilon nz); [tauto|].
  destruct (Qltb nz (- epsilon)); split; discriminate.
Qed.

Hypothesis epsilon_nonneg : (0 <= epsilon)%Q.

Lemma classify_Floor nz :
  classify_surface nz epsilon = Floor <-> (nz < - epsilon)%Q.
Proof.
  unfold classify_surface.
  destruct (Qltb epsilon nz) eqn:Hr.
  - apply Qltb_lt in Hr. split; [discriminate|]. intros Hf. lra.
  - rewrite <- Qltb_lt. destruct (Qltb nz (- epsilon)); split; auto; discriminate.
Qed.

Lemma classify_Wall nz :
  classify_surface nz epsilon = Wall <-> (- epsilon <= nz /\ nz <= epsilon)%Q.
Proof.
  unfold classify_surface.
  destruct (Qltb epsilon nz) eqn:Hr.
  - apply Qltb_lt in Hr. split; [discriminate|]. intros [_ Hw]. lra.
  - apply Qltb_ge in Hr. destruct (Qltb nz (- epsilon)) eqn:Hf.
    + apply Qltb_lt in Hf. split; [discriminate|]. intros [Hw _]. lra.
    + apply Qltb_ge in Hf. tauto.
Qed.

Lemma classify_opp_Floor nz :
  classify_surface (- nz) epsilon = Floor <-> classify_surface nz epsilon = Roof.
Proof. rewrite classify_Floor, classify_Roof. split; intros; lra. Qed.

Lemma classify_opp_Roof nz :
  classify_surface (- nz) epsilon = Roof <-> classify_surface nz epsilon = Floor.
Proof. rewrite classify_Floor, classify_Roof. split; intros; lra. Qed.

Lemma classify_opp_Wall nz :
  classify_surface (- nz) epsilon = Wall <-> classify_surface nz epsilon = Wall.
Proof. rewrite !classify_Wall. split; intros [? ?]; split; lra. Qed.
End Classifier.

Lemma epsilon_default_nonneg : (0 <= epsilon_default)%Q.
Proof. unfold epsilon_default. lra. Qed.

(** C1: with the default tolerance, [classify_surface] returns one of
    the three classes for every [nz]: Roof exactly when [nz > epsilon],
    Floor exactly when [nz < -epsilon], Wall exactly in the closed band
    between them; both boundary values are Wall, and [epsilon + delta]
    is Roof exactly for the positive [delta]. *)
Theorem classify_surface_total_boundary :
  forall nz : Q,
    (classify_surface nz epsilon_default = Roof <-> (epsilon_default < nz)%Q) /\
    (classify_surface nz epsilon_default = Floor <-> (nz < - epsilon_default)%Q) /\
    (classify_surface nz epsilon_default = Wall <->
       (- epsilon_default <= nz /\ nz <= epsilon_default)%Q) /\
    classify_surface epsilon_default epsilon_default = Wall /\
    classify_surface (- epsilon_default) epsilon_default = Wall /\
    (forall delta : Q, (0 < delta)%Q <->
       classify_surface (epsilon_default + delta) epsilon_default = Roof).
Proof.
  intros nz. pose proof epsilon_default_nonneg as H0.
  split. { apply classify_Roof. }
  split. { apply (classify_Floor _ H0). }
  split. { apply classify_Wall. }
  split. { apply classify_Wall. split; lra. }
  split. { apply classify_Wall. split; lra. }
  intros delta. rewrite classify_Roof. split; intros; lra.
Qed.

(** C10: negating [nz] swaps Roof and Floor and keeps Wall. *)
Theorem classify_surface_negation :
  forall nz : Q,
    (classify_surface (- nz) epsilon_default = Floor <->
       classify_surface nz epsilon_default = Roof) /\
    (classify_surface (- nz) epsilon_default = Roof <->
       classify_surface nz epsilon_default = Floor) /\
    (classify_surface (- nz) epsilon_default = Wall <->
       classify_surface nz epsilon_default = Wall).
Proof.
  intros nz. pose proof epsilon_default_nonneg as H0.
  split. { apply (classify_opp_Floor _ H0). }
  split. { apply (classify_opp_Roof _ H0). }
  apply classify_opp_Wall.
Qed.

(** ** The main loop *)

Lemma getitem_Some particle key v :
  particle !! key = Some v -> getitem particle key = Ok v.
Proof. unfold getitem. intros ->. reflexivity. Qed.

Lemma getitem_None particle key :
  particle !! key = None -> getitem particle key = Raise (KeyError key).
Proof. unfold getitem. intros ->. reflexivity. Qed.

Ltac read_coordinate particle key :=
  let v := fresh "v" in
  let Hv := fresh "Hv" in
  destruct (particle !! key) as [v|] eqn:Hv;
  [ rewrite (getitem_Some _ _ _ Hv); cbn [bind]
  | right; exists key; split; [set_solver|];
    split; [exact Hv|]; rewrite (getitem_None _ _ Hv); reflexivity ].

(** One turn of the inner loop: with the nine coordinates the record
    and the triangle are appended, without one of them the first
    missing key is raised. *)
Lemma process_particle_cases building_id idx particle infos coords :
  (has_coordinates particle /\
   process_particle building_id idx particle (infos, coords)
   = Ok (infos ++ [info_of building_id idx particle], push coords particle))
  \/
  (exists key, key ∈ coordinate_keys /\ particle !! key = None /\
     process_particle building_id idx particle (infos, coords)
     = Raise (KeyError key)).
Proof.
  unfold process_particle.
  read_coordinate particle "x0". read_coordinate particle "x1".
  read_coordinate particle "x2". read_coordinate particle "y0".
  read_coordinate particle "y1". read_coordinate particle "y2".
  read_coordinate particle "z0". read_coordinate particle "z1".
  read_coordinate particle "z2".
  left. split.
  - unfold has_coordinates, coordinate_keys.
    repeat (apply Forall_cons; split; [eauto|]). apply Forall_nil_2.
  - unfold push, push_triangle, info_of, surface_of.
    rewrite !(lookup_total_correct particle _ _ Hv),
            !(lookup_total_correct particle _ _ Hv0),
            !(lookup_total_correct particle _ _ Hv1),
            !(lookup_total_correct particle _ _ Hv2),
            !(lookup_total_correct particle _ _ Hv3),
            !(lookup_total_correct particle _ _ Hv4),
            !(lookup_total_correct particle _ _ Hv5),
            !(lookup_total_correct particle _ _ Hv6),
            !(lookup_total_correct particle _ _ Hv7).
    reflexivity.
Qed.

Lemma process_particle_Ok building_id idx particle infos coords :
  has_coordinates particle ->
  process_particle building_id idx particle (infos, coords)
  = Ok (infos ++ [info_of building_id idx particle], push coords particle).
Proof.
  intros Hc.
  destruct (process_particle_cases building_id idx particle infos coords)
    as [[_ H]|(key & Hkey & Hnone & _)]; [exact H|].
  unfold has_coordinates in Hc. rewrite Forall_forall in Hc.
  destruct (Hc key Hkey) as [v Hv]. congruence.
Qed.

Lemma process_particles_Ok building_id particles :
  Forall has_coordinates particles ->
  forall idx infos coords,
    process_particles building_id idx particles (infos, coords)
    = Ok (infos ++ imap (fun i => info_of building_id (idx + i)) particles,
          foldl push coords particles).
Proof.
  induction 1 as [|particle particles Hc _ IH]; intros idx infos coords;
    cbn [process_particles imap foldl].
  - by rewrite app_nil_r.
  - rewrite process_particle_Ok by done. cbn [bind].
    rewrite IH, <- app_assoc. cbn [app]. rewrite Nat.add_0_r.
    do 4 f_equal. apply imap_ext. intros i x _. simpl. f_equal. lia.
Qed.

Lemma process_particles_Raise building_id particles :
  ~ Forall has_coordinates particles ->
  forall idx st,
    exists particle key,
      particle ∈ particles /\ key ∈ coordinate_keys /\
      particle !! key = None /\
      process_particles building_id idx particles st = Raise (KeyError key).
Proof.
  induction particles as [|particle particles IH]; intros Hbad idx [infos coords].
  - destruct Hbad. constructor.
  - cbn [process_particles].
    destruct (process_particle_cases building_id idx particle infos coords)
      as [[Hc ->]|(key & Hkey & Hnone & ->)]; cbn [bind].
    + destruct (IH (fun H => Hbad (Forall_cons_2 _ _ _ Hc H)) (S idx)
                  (infos ++ [info_of building_id idx particle], push coords particle))
        as (p & key & Hp & Hkey & Hnone & Hr).
      exists p, key. repeat split; try done. by apply list_elem_of_further.
    + exists particle, key. repeat split; try done. apply list_elem_of_here.
Qed.

Lemma process_building_Ok b infos coords :
  Forall has_coordinates (triangles b) ->
  process_building b (infos, coords)
  = Ok (infos ++ records b, foldl push coords (triangles b)).
Proof.
  intros Hc. unfold process_building, records.
  fold (triangles b). by rewrite process_particles_Ok.
Qed.

Lemma process_buildings_Ok data :
  well_formed data ->
  forall infos coords,
    process_buildings data (infos, coords)
    = Ok (infos ++ flat_map records data,
          foldl push coords (all_triangles data)).
Proof.
  induction 1 as [|b data Hb _ IH]; intros infos coords;
    cbn [process_buildings flat_map].
  - by rewrite app_nil_r.
  - rewrite process_building_Ok by done. cbn [bind].
    rewrite IH, <- app_assoc. unfold all_triangles. cbn [flat_map].
    by rewrite foldl_app.
Qed.

Lemma process_buildings_Raise data :
  ~ well_formed data ->
  forall st,
    exists b particle key,
      b ∈ data /\ particle ∈ triangles b /\ key ∈ coordinate_keys /\
      particle !! key = None /\
      process_buildings data st = Raise (KeyError key).
Proof.
  induction data as [|b data IH]; intros Hbad [infos coords].
  - destruct Hbad. constructor.
  - cbn [process_buildings].
    destruct (decide (Forall has_coordinates (triangles b))) as [Hb|Hb].
    + rewrite process_building_Ok by done. cbn [bind].
      destruct (IH (fun H => Hbad (Forall_cons_2 _ _ _ Hb H))
                  (infos ++ records b, foldl push coords (triangles b)))
        as (b' & p & key & Hb' & Hp & Hkey & Hnone & Hr).
      exists b', p, key. repeat split; try done. by apply list_elem_of_further.
    + destruct (process_particles_Raise (default "Unknown" (ehr b)) _ Hb 0
                  (infos, coords)) as (p & key & Hp & Hkey & Hnone & Hr).
      exists b, p, key. repeat split; try done; [apply list_elem_of_here|].
      unfold process_building. fold (triangles b). by rewrite Hr.
Qed.

(** The loop succeeds exactly on the inputs whose triangles all have
    their coordinates, and then returns the records of all triangles
    and the buffers filled with all triangles. *)
Lemma collect_Ok data :
  well_formed data ->
  collect data
  = Ok (flat_map records data, foldl push initial_coords (all_triangles data)).
Proof. intros H. unfold collect. by rewrite process_buildings_Ok. Qed.

Lemma collect_Raise data :
  ~ well_formed data ->
  exists b particle key,
    b ∈ data /\ particle ∈ triangles b /\ key ∈ coordinate_keys /\
    particle !! key = None /\ collect data = Raise (KeyError key).
Proof. intros H. by apply process_buildings_Raise. Qed.

(** ** The buffers after the loop *)

Lemma coords_get_set coords s' c s :
  coords_get (coords_set coords s' c) s
  = if decide (s' = s) then c else coords_get coords s.
Proof. destruct s', s; reflexivity. Qed.

Lemma coords_get_push coords particle s :
  coords_get (push coords particle) s
  = if decide (surface_of particle = s)
    then push_triangle (coords_get coords s) particle
    else coords_get coords s.
Proof.
  unfold push. rewrite coords_get_set.
  destruct (decide (surface_of particle = s)) as [->|]; reflexivity.
Qed.

(** Each class receives its own triangles, in input order. *)
Lemma coords_get_foldl_push particles s :
  forall coords,
    coords_get (foldl push coords particles) s
    = foldl push_triangle (coords_get coords s)
            (filter (fun particle => surface_of particle = s) particles).
Proof.
  induction particles as [|p particles IH]; intros coords; [reflexivity|].
  cbn [foldl]. rewrite IH, coords_get_push, filter_cons.
  destruct (decide (surface_of p = s)); reflexivity.
Qed.

Lemma foldl_push_triangle particles :
  forall c,
    foldl push_triangle c particles
    = {| cx := cx c ++ flat_map (fun p => [p !!! "x0"; p !!! "x1"; p !!! "x2"])
                                particles;
         cy := cy c ++ flat_map (fun p => [p !!! "y0"; p !!! "y1"; p !!! "y2"])
                                particles;
         cz := cz c ++ flat_map (fun p => [p !!! "z0"; p !!! "z1"; p !!! "z2"])
                                particles;
         ci := ci c ++ map (fun t => length (cx c) + 3 * t)
                           (seq 0 (length particles));
         cj := cj c ++ map (fun t => length (cx c) + 3 * t + 1)
                           (seq 0 (length particles));
         ck := ck c ++ map (fun t => length (cx c) + 3 * t + 2)
                           (seq 0 (length particles)) |}.
Proof.
  induction particles as [|p particles IH]; intros c.
  - destruct c. cbn. by rewrite !app_nil_r.
  - cbn [foldl]. rewrite IH. cbn [push_triangle cx cy cz ci cj ck].
    cbn [flat_map length seq map]. rewrite <- !seq_shift, !map_map.
    rewrite <- !app_assoc, !length_app. cbn [app length].
    f_equal; f_equal; (f_equal; [lia|]); apply map_ext; intros t; lia.
Qed.

Lemma lookup_flat_map_triple {A B} (f g h : A -> B) (l : list A) t :
  flat_map (fun a => [f a; g a; h a]) l !! (3 * t) = f <$> l !! t /\
  flat_map (fun a => [f a; g a; h a]) l !! (3 * t + 1) = g <$> l !! t /\
  flat_map (fun a => [f a; g a; h a]) l !! (3 * t + 2) = h <$> l !! t.
Proof.
  revert t. induction l as [|a l IH]; intros t; [done|].
  destruct t as [|t]; [done|].
  replace (3 * S t) with (S (S (S (3 * t)))) by lia.
  cbn [flat_map app]. apply IH.
Qed.

Lemma length_flat_map_triple {A B} (f g h : A -> B) (l : list A) :
  length (flat_map (fun a => [f a; g a; h a]) l) = 3 * length l.
Proof. induction l; cbn [flat_map app length]; lia. Qed.

Lemma lookup_lookup_total_coordinate (particle : gmap string number) key :
  has_coordinates particle -> key ∈ coordinate_keys ->
  particle !! key = Some (particle !!! key).
Proof.
  unfold has_coordinates. rewrite Forall_forall. intros H Hk.
  by apply lookup_lookup_total, H.
Qed.

(** The buffer of class [s] after a successful loop: the coordinates of
    the triangles of the class three by three, and the triples
    [(3t, 3t+1, 3t+2)]. *)
Lemma collected_buffer data s :
  let c := coords_get (foldl push initial_coords (all_triangles data)) s in
  let ps := triangles_of_class s data in
  cx c = flat_map (fun p => [p !!! "x0"; p !!! "x1"; p !!! "x2"]) ps /\
  cy c = flat_map (fun p => [p !!! "y0"; p !!! "y1"; p !!! "y2"]) ps /\
  cz c = flat_map (fun p => [p !!! "z0"; p !!! "z1"; p !!! "z2"]) ps /\
  ci c = map (fun t => 3 * t) (seq 0 (length ps)) /\
  cj c = map (fun t => 3 * t + 1) (seq 0 (length ps)) /\
  ck c = map (fun t => 3 * t + 2) (seq 0 (length ps)).
Proof.
  intros c ps. subst c. rewrite coords_get_foldl_push, foldl_push_triangle.
  fold (triangles_of_class s data). fold ps.
  replace (coords_get initial_coords s) with empty_buffers by (by destruct s).
  cbn. repeat split; reflexivity.
Qed.

Lemma lookup_map_seq {A} (f : nat -> A) n t :
  t < n -> map f (seq 0 n) !! t = Some (f t).
Proof.
  intros Ht. change (map f (seq 0 n)) with (f <$> seq 0 n).
  rewrite list_lookup_fmap, lookup_seq_lt by done. reflexivity.
Qed.

(** ** The catalog after the loop *)

Lemma length_records b : length (records b) = length (triangles b).
Proof. unfold records. apply length_imap. Qed.

Lemma length_flat_map_records data :
  length (flat_map records data) = length (all_triangles data).
Proof.
  unfold all_triangles. induction data as [|b data IH]; [done|].
  cbn [flat_map]. rewrite !length_app, length_records. lia.
Qed.

Lemma length_all_triangles data :
  length (all_triangles data)
  = sum_list (map (fun b => length (triangles b)) data).
Proof.
  unfold all_triangles. induction data as [|b data IH]; [done|].
  cbn [flat_map map]. rewrite length_app, IH. reflexivity.
Qed.

Lemma lookup_records b idx particle :
  triangles b !! idx = Some particle ->
  records b !! idx = Some (info_of (default "Unknown" (ehr b)) idx particle).
Proof. intros H. unfold records. by rewrite list_lookup_imap, H. Qed.

Lemma lookup_catalog data b building idx particle :
  data !! b = Some building ->
  triangles building !! idx = Some particle ->
  flat_map records data !! (offset data b + idx)
  = Some (info_of (default "Unknown" (ehr building)) idx particle).
Proof.
  intros Hb Hp.
  assert (flat_map records data
          = flat_map records (take b data)
            ++ records building ++ flat_map records (drop (S b) data)) as ->.
  { rewrite <- (take_drop_middle data b building Hb) at 1.
    by rewrite flat_map_app. }
  unfold offset.
  rewrite lookup_app_r; rewrite length_flat_map_records; [|lia].
  replace (_ + idx - _) with idx by lia.
  rewrite lookup_app_l by (rewrite length_records; by eapply lookup_lt_Some).
  by apply lookup_records.
Qed.

Lemma elem_of_all_triangles data particle :
  particle ∈ all_triangles data <->
  exists b, b ∈ data /\ particle ∈ triangles b.
Proof.
  unfold all_triangles. rewrite list_elem_of_In, in_flat_map.
  setoid_rewrite list_elem_of_In. reflexivity.
Qed.

Lemma well_formed_all_triangles data :
  well_formed data <-> Forall has_coordinates (all_triangles data).
Proof.
  unfold well_formed. rewrite !Forall_forall. split.
  - intros H p (b & Hb & Hp)%elem_of_all_triangles.
    specialize (H b Hb). rewrite Forall_forall in H. by apply H.
  - intros H b Hb. rewrite Forall_forall. intros p Hp.
    apply H, elem_of_all_triangles. eauto.
Qed.

(** ** The table and the figure *)

Lemma tv_children_delete_all ids :
  forall tree,
    (forall it, it ∈ tv_children tree -> iid it ∈ ids) ->
    tv_children (fold_left tree_delete ids tree) = [].
Proof.
  induction ids as [|id ids IH]; intros tree Hids; cbn [fold_left].
  - destruct (tv_children tree) as [|it l]; [done|].
    specialize (Hids it (list_elem_of_here _ _)). by apply elem_of_nil in Hids.
  - apply IH. intros it. unfold tree_delete. cbn [tv_children].
    rewrite list_elem_of_In, filter_In, <- list_elem_of_In.
    intros [Hit Hne]. specialize (Hids it Hit).
    apply elem_of_cons in Hids as [Heq|Hin]; [|done].
    unfold has_iid in Hne. rewrite Heq, String.eqb_refl in Hne. done.
Qed.

Lemma tv_children_insert_all infos :
  forall tree,
    map values (tv_children
                  (fold_left (fun tv si => tree_insert tv (row_of si)) infos tree))
    = map values (tv_children tree) ++ map row_of infos.
Proof.
  induction infos as [|si infos IH]; intros tree; cbn [fold_left map].
  - by rewrite app_nil_r.
  - rewrite IH. unfold tree_insert. cbn [tv_children].
    rewrite map_app, <- app_assoc. reflexivity.
Qed.

(** After the update the table shows the records, one row each. *)
Lemma update_treeview_rows infos tree :
  map values (tv_children (update_treeview infos tree)) = map row_of infos.
Proof.
  unfold update_treeview. rewrite tv_children_insert_all.
  rewrite tv_children_delete_all; [done|].
  intros it Hit. unfold get_children.
  apply list_elem_of_In, in_map, list_elem_of_In, Hit.
Qed.

Lemma elem_of_make_meshes coords m :
  m ∈ make_meshes coords <->
  exists s, cx (coords_get coords s) <> [] /\ m = Mesh3d s (coords_get coords s).
Proof.
  unfold make_meshes, coords_items. cbn [flat_map]. rewrite app_nil_r.
  rewrite !elem_of_app. split.
  - intros [H|[H|H]];
      [exists Roof | exists Wall | exists Floor]; cbn [coords_get];
      destruct (cx _); try (by apply elem_of_nil in H);
      apply list_elem_of_singleton in H; done.
  - intros (s & Hne & ->). destruct s; cbn [coords_get] in *;
      [left | right; left | right; right];
      (destruct (cx _); [done | apply list_elem_of_here]).
Qed.

Lemma surface_name_inj s1 s2 : surface_name s1 = surface_name s2 -> s1 = s2.
Proof. destruct s1, s2; simpl; congruence. Qed.

Lemma mesh_of_buffer_Mesh3d s c : mesh_of_buffer (Mesh3d s c) s c.
Proof. repeat split. Qed.

(** The two ways in which a call on a list of buildings ends. *)
Lemma visualize_data_Ok data tree :
  well_formed data ->
  visualize_data (JsonList data) tree
  = (update_treeview (flat_map records data) tree,
     match make_meshes (foldl push initial_coords (all_triangles data)) with
     | [] => Printed "No particle data available to visualize."
     | meshes => Shown meshes
     end).
Proof.
  intros H. unfold visualize_data. rewrite collect_Ok by done.
  by destruct (make_meshes _).
Qed.

Lemma figure_of_visualize_data data tree :
  well_formed data ->
  figure_of (visualize_data (JsonList data) tree).2
  = make_meshes (foldl push initial_coords (all_triangles data)).
Proof.
  intros H. rewrite visualize_data_Ok by done. cbn [snd].
  by destruct (make_meshes _).
Qed.

Lemma visualize_data_not_Raised data tree e :
  well_formed data -> (visualize_data (JsonList data) tree).2 <> Raised e.
Proof.
  intros H. rewrite visualize_data_Ok by done. cbn [snd].
  by destruct (make_meshes _).
Qed.

Lemma visualize_data_Raise data tree :
  ~ well_formed data ->
  exists b particle key,
    b ∈ data /\ particle ∈ triangles b /\ key ∈ coordinate_keys /\
    particle !! key = None /\
    visualize_data (JsonList data) tree = (tree, Raised (KeyError key)).
Proof.
  intros H. destruct (collect_Raise data H) as (b & p & key & ? & ? & ? & ? & Hr).
  exists b, p, key. repeat split; try done. unfold visualize_data. by rewrite Hr.
Qed.

(** The triangle of every particle of class [s] stands in the buffer of
    [s], at the rank the particle has among the particles of [s]. *)
Lemma collected_triangle_at data s t particle :
  well_formed data ->
  triangles_of_class s data !! t = Some particle ->
  triangle_at (coords_get (foldl push initial_coords (all_triangles data)) s)
              t particle.
Proof.
  intros Hwf Ht.
  destruct (collected_buffer data s) as (Hx & Hy & Hz & Hi & Hj & Hk).
  assert (has_coordinates particle) as Hc.
  { apply well_formed_all_triangles in Hwf. rewrite Forall_forall in Hwf.
    apply Hwf. apply list_elem_of_lookup_2 in Ht.
    unfold triangles_of_class in Ht. by apply list_elem_of_filter in Ht as [_ ?]. }
  pose proof (lookup_lt_Some _ _ _ Ht) as Hlt.
  unfold triangle_at. rewrite Hx, Hy, Hz, Hi, Hj, Hk.
  rewrite !lookup_map_seq by done.
  pose proof (lookup_flat_map_triple
                (fun p : gmap string number => p !!! "x0")
                (fun p => p !!! "x1") (fun p => p !!! "x2")
                (triangles_of_class s data) t) as (-> & -> & ->).
  pose proof (lookup_flat_map_triple
                (fun p : gmap string number => p !!! "y0")
                (fun p => p !!! "y1") (fun p => p !!! "y2")
                (triangles_of_class s data) t) as (-> & -> & ->).
  pose proof (lookup_flat_map_triple
                (fun p : gmap string number => p !!! "z0")
                (fun p => p !!! "z1") (fun p => p !!! "z2")
                (triangles_of_class s data) t) as (-> & -> & ->).
  rewrite Ht. cbn [fmap option_fmap option_map].
  rewrite !(lookup_lookup_total_coordinate particle) by (done || set_solver).
  repeat split; eauto.
Qed.

(** ** The specification's scenarios, run on the model *)

Example scenario_A :
  collect one_roof
  = Ok ([{| Building_ID := "B1"; Surface_Type := Roof;
            Area := PyFloat 4 "4.0"; Index := 0 |}],
        coords_set initial_coords Roof
          {| cx := [PyInt 0; PyInt 1; PyInt 0];
             cy := [PyInt 0; PyInt 0; PyInt 1];
             cz := [PyInt 0; PyInt 0; PyInt 0];
             ci := [0]; cj := [1]; ck := [2] |}) /\
  map mesh_name (figure_of (visualize_data (JsonList one_roof) empty_tree).2)
  = ["Roof"].
Proof. split; vm_compute; reflexivity. Qed.

Example scenario_B :
  (map (fun r => (Surface_Type r, Index r)) <$>
     (match collect roof_and_floor with
      | Ok (infos, _) => Some infos
      | Raise _ => None
      end)) = Some [(Roof, 0); (Floor, 1)] /\
  map (fun m => (mesh_name m, mesh_i m, mesh_j m, mesh_k m))
      (figure_of (visualize_data (JsonList roof_and_floor) empty_tree).2)
  = [("Roof", [0], [1], [2]); ("Floor", [0], [1], [2])].
Proof. split; vm_compute; reflexivity. Qed.

Example scenario_C :
  visualize_data (JsonList []) one_row_tree
  = ({| tv_children := []; tv_serial := 1; tv_heading := tv_heading one_row_tree |},
     Printed "No particle data available to visualize.").
Proof. reflexivity. Qed.

(** ** Claims about the aggregation *)

Lemma well_formed_bool_decide data : bool_decide (well_formed data) = true -> well_formed data.
Proof. apply bool_decide_eq_true_1. Qed.

(** C2: after the loop, in the buffer of every class the [t]-th index
    triple is [(3t, 3t+1, 3t+2)], there are three vertices per triple,
    and the vertices at the three positions of a triple are those of
    the triangle that the triple was appended for; the traces of the
    figure carry these same lists. *)
Theorem index_triples_contiguous :
  forall data,
    well_formed data ->
    exists infos coords,
      collect data = Ok (infos, coords) /\
      (forall s,
         let c := coords_get coords s in
         let ps := triangles_of_class s data in
         (length (ci c) = length ps /\ length (cj c) = length ps /\
          length (ck c) = length ps) /\
         (length (cx c) = 3 * length (ci c) /\
          length (cy c) = 3 * length (ci c) /\
          length (cz c) = 3 * length (ci c)) /\
         (forall t, t < length (ci c) ->
            ci c !! t = Some (3 * t) /\ cj c !! t = Some (3 * t + 1) /\
            ck c !! t = Some (3 * t + 2)) /\
         (forall t particle, ps !! t = Some particle -> triangle_at c t particle)) /\
      (forall tree m,
         m ∈ figure_of (visualize_data (JsonList data) tree).2 ->
         exists s, mesh_of_buffer m s (coords_get coords s)).
Proof.
  intros data Hwf. eexists _, _. split; [by apply collect_Ok|]. split.
  - intros s c ps. subst c ps.
    destruct (collected_buffer data s) as (Hx & Hy & Hz & Hi & Hj & Hk).
    rewrite Hx, Hy, Hz, Hi, Hj, Hk.
    rewrite !length_map, !length_seq, !length_flat_map_triple.
    split; [done|]. split; [done|]. split.
    + intros t Ht.
      rewrite (lookup_map_seq (fun t => 3 * t)),
              (lookup_map_seq (fun t => 3 * t + 1)),
              (lookup_map_seq (fun t => 3 * t + 2)) by done.
      done.
    + intros t particle Ht.
      exact (collected_triangle_at data s t particle Hwf Ht).
  - intros tree m. rewrite figure_of_visualize_data by done.
    intros (s & _ & ->)%elem_of_make_meshes.
    exists s. apply mesh_of_buffer_Mesh3d.
Qed.

Lemma index_triples_contiguous_witness :
  exists infos coords,
    collect roof_and_floor = Ok (infos, coords) /\
    (forall s,
       let c := coords_get coords s in
       let ps := triangles_of_class s roof_and_floor in
       (length (ci c) = length ps /\ length (cj c) = length ps /\
        length (ck c) = length ps) /\
       (length (cx c) = 3 * length (ci c) /\
        length (cy c) = 3 * length (ci c) /\
        length (cz c) = 3 * length (ci c)) /\
       (forall t, t < length (ci c) ->
          ci c !! t = Some (3 * t) /\ cj c !! t = Some (3 * t + 1) /\
          ck c !! t = Some (3 * t + 2)) /\
       (forall t particle, ps !! t = Some particle -> triangle_at c t particle)) /\
    (forall tree m,
       m ∈ figure_of (visualize_data (JsonList roof_and_floor) tree).2 ->
       exists s, mesh_of_buffer m s (coords_get coords s)).
Proof.
  apply (index_triples_contiguous roof_and_floor).
  apply well_formed_bool_decide. vm_compute. reflexivity.
Defined.

(** C5: the catalog has exactly one record per triangle, in building
    order and then triangle order; the record of triangle number [idx]
    of a building stands after the records of all earlier buildings,
    carries [idx] as its Index, and the table shows these records in
    this order.  Buildings without triangles contribute nothing.  The
    result is a function of the input. *)
Theorem catalog_one_record_per_triangle :
  forall data,
    well_formed data ->
    exists infos coords,
      collect data = Ok (infos, coords) /\
      length infos = sum_list (map (fun b => length (triangles b)) data) /\
      (forall b building idx particle,
         data !! b = Some building ->
         triangles building !! idx = Some particle ->
         exists r,
           infos !! (offset data b + idx) = Some r /\
           Index r = idx /\
           Building_ID r = default "Unknown" (ehr building) /\
           Surface_Type r = surface_of particle /\
           Area r = default (PyInt 0) (particle !! "area")) /\
      (forall tree,
         map values (tv_children (visualize_data (JsonList data) tree).1)
         = map row_of infos) /\
      (forall other, collect data = Ok other -> other = (infos, coords)).
Proof.
  intros data Hwf. eexists _, _. split; [by apply collect_Ok|].
  split; [by rewrite length_flat_map_records, length_all_triangles|].
  split; [|split].
  - intros b building idx particle Hb Hp. eexists. split.
    + by apply lookup_catalog.
    + repeat split.
  - intros tree. rewrite visualize_data_Ok by done. cbn [fst].
    apply update_treeview_rows.
  - intros other. rewrite collect_Ok by done. congruence.
Qed.

Lemma catalog_one_record_per_triangle_witness :
  exists infos coords,
    collect anonymous = Ok (infos, coords) /\
    length infos = sum_list (map (fun b => length (triangles b)) anonymous) /\
    (forall b building idx particle,
       anonymous !! b = Some building ->
       triangles building !! idx = Some particle ->
       exists r,
         infos !! (offset anonymous b + idx) = Some r /\
         Index r = idx /\
         Building_ID r = default "Unknown" (ehr building) /\
         Surface_Type r = surface_of particle /\
         Area r = default (PyInt 0) (particle !! "area")) /\
    (forall tree,
       map values (tv_children (visualize_data (JsonList anonymous) tree).1)
       = map row_of infos) /\
    (forall other, collect anonymous = Ok other -> other = (infos, coords)).
Proof.
  apply (catalog_one_record_per_triangle anonymous).
  apply well_formed_bool_decide. vm_compute. reflexivity.
Defined.

(** C7: the figure has a trace for a class exactly when the loop
    succeeded and assigned at least one triangle to the class; no trace
    of the figure is empty. *)
Theorem meshes_only_for_assigned_classes :
  forall data tree s,
    ((exists m, m ∈ figure_of (visualize_data (JsonList data) tree).2 /\
                mesh_name m = surface_name s) <->
     (well_formed data /\ triangles_of_class s data <> [])) /\
    Forall (fun m => mesh_x m <> [] /\ mesh_i m <> [])
           (figure_of (visualize_data (JsonList data) tree).2).
Proof.
  intros data tree s.
  destruct (decide (well_formed data)) as [Hwf|Hbad].
  - rewrite figure_of_visualize_data by done.
    assert (forall s', cx (coords_get (foldl push initial_coords (all_triangles data)) s') <> []
                       <-> triangles_of_class s' data <> []) as Hne.
    { intros s'. destruct (collected_buffer data s') as (-> & _).
      destruct (triangles_of_class s' data); cbn; split; congruence. }
    split.
    + split.
      * intros (m & (s' & Hx & ->)%elem_of_make_meshes & Hname).
        apply surface_name_inj in Hname as ->. split; [done|]. by apply Hne.
      * intros [_ Hs].
        exists (Mesh3d s (coords_get (foldl push initial_coords (all_triangles data)) s)).
        split; [|reflexivity].
        apply elem_of_make_meshes. exists s. split; [by apply Hne|done].
    + apply Forall_forall. intros m (s' & Hx & ->)%elem_of_make_meshes.
      split; [exact Hx|]. cbn [Mesh3d mesh_i].
      destruct (collected_buffer data s') as (_ & _ & _ & -> & _).
      apply Hne in Hx. destruct (triangles_of_class s' data); [done|].
      cbn. congruence.
  - destruct (visualize_data_Raise data tree Hbad) as (b & p & key & _ & _ & _ & _ & ->).
    cbn [snd figure_of]. split; [|constructor]. split.
    + intros (m & Hm & _). by apply elem_of_nil in Hm.
    + intros [Hwf _]. done.
Qed.

(** C8: every record of a building without ['ehr'] carries the text
    ["Unknown"] as its building identifier, and so does its table row;
    the absent identifier raises nothing. *)
Theorem missing_identifier_is_Unknown :
  forall data,
    well_formed data ->
    exists infos coords,
      collect data = Ok (infos, coords) /\
      (forall tree e, (visualize_data (JsonList data) tree).2 <> Raised e) /\
      (forall b building idx particle,
         data !! b = Some building ->
         ehr building = None ->
         triangles building !! idx = Some particle ->
         exists r,
           infos !! (offset data b + idx) = Some r /\
           Building_ID r = "Unknown" /\
           (row_of r).1.1 = "Unknown").
Proof.
  intros data Hwf. eexists _, _. split; [by apply collect_Ok|]. split.
  - intros tree e. by apply visualize_data_not_Raised.
  - intros b building idx particle Hb Hehr Hp. eexists. split.
    + by apply lookup_catalog.
    + rewrite Hehr. split; reflexivity.
Qed.

Lemma missing_identifier_is_Unknown_witness :
  exists infos coords,
    collect anonymous = Ok (infos, coords) /\
    (forall tree e, (visualize_data (JsonList anonymous) tree).2 <> Raised e) /\
    (forall b building idx particle,
       anonymous !! b = Some building ->
       ehr building = None ->
       triangles building !! idx = Some particle ->
       exists r,
         infos !! (offset anonymous b + idx) = Some r /\
         Building_ID r = "Unknown" /\
         (row_of r).1.1 = "Unknown").
Proof.
  apply (missing_identifier_is_Unknown anonymous).
  apply well_formed_bool_decide. vm_compute. reflexivity.
Defined.

Lemma surface_of_without_nz (particle : gmap string number) :
  particle !! "nz" = None -> surface_of particle = Wall.
Proof. intros H. unfold surface_of. rewrite H. reflexivity. Qed.

Lemma elem_of_triangles_of_class data b building idx particle :
  data !! b = Some building ->
  triangles building !! idx = Some particle ->
  exists t, triangles_of_class (surface_of particle) data !! t = Some particle.
Proof.
  intros Hb Hp. apply list_elem_of_lookup_1. unfold triangles_of_class.
  apply list_elem_of_filter. split; [done|].
  apply elem_of_all_triangles. exists building.
  split; eapply list_elem_of_lookup_2; eauto.
Qed.

(** C9: a particle without ['nz'] is classified with [nz = 0], that is
    as Wall, and a particle without ['area'] gets the area [0] in its
    record and the text ["0"] in its row; either way the record is
    appended, the triangle is appended to the buffer of its class, and
    the call raises nothing. *)
Theorem missing_nz_area_default_to_zero :
  forall data,
    well_formed data ->
    exists infos coords,
      collect data = Ok (infos, coords) /\
      (forall tree e, (visualize_data (JsonList data) tree).2 <> Raised e) /\
      (forall b building idx particle,
         data !! b = Some building ->
         triangles building !! idx = Some particle ->
         exists r,
           infos !! (offset data b + idx) = Some r /\
           (exists t, triangle_at (coords_get coords (Surface_Type r)) t particle) /\
           (particle !! "nz" = None -> Surface_Type r = Wall) /\
           (particle !! "area" = None ->
              Area r = PyInt 0 /\ (row_of r).2 = "0")).
Proof.
  intros data Hwf. eexists _, _. split; [by apply collect_Ok|]. split.
  - intros tree e. by apply visualize_data_not_Raised.
  - intros b building idx particle Hb Hp. eexists.
    split; [by apply lookup_catalog|]. cbn [info_of Surface_Type Area].
    split; [|split].
    + destruct (elem_of_triangles_of_class data b building idx particle Hb Hp)
        as [t Ht].
      exists t. by apply collected_triangle_at.
    + apply surface_of_without_nz.
    + intros Ha. unfold row_of, info_of. cbn [Area snd]. rewrite Ha.
      split; vm_compute; reflexivity.
Qed.

Lemma missing_nz_area_default_to_zero_witness :
  exists infos coords,
    collect anonymous = Ok (infos, coords) /\
    (forall tree e, (visualize_data (JsonList anonymous) tree).2 <> Raised e) /\
    (forall b building idx particle,
       anonymous !! b = Some building ->
       triangles building !! idx = Some particle ->
       exists r,
         infos !! (offset anonymous b + idx) = Some r /\
         (exists t, triangle_at (coords_get coords (Surface_Type r)) t particle) /\
         (particle !! "nz" = None -> Surface_Type r = Wall) /\
         (particle !! "area" = None ->
            Area r = PyInt 0 /\ (row_of r).2 = "0")).
Proof.
  apply (missing_nz_area_default_to_zero anonymous).
  apply well_formed_bool_decide. vm_compute. reflexivity.
Defined.

Example anonymous_run :
  visualize_data (JsonList anonymous) one_row_tree
  = ({| tv_children := [{| iid := "I002"; values := ("Unknown", "Wall", "0") |}];
        tv_serial := 2;
        tv_heading := tv_heading one_row_tree |},
     Shown [Mesh3d Wall {| cx := [PyInt 0; PyInt 1; PyInt 0];
                           cy := [PyInt 0; PyInt 0; PyInt 1];
                           cz := [PyInt 0; PyInt 0; PyInt 0];
                           ci := [0]; cj := [1]; ck := [2] |}]).
Proof. vm_compute. reflexivity. Qed.

(** ** Missing fields *)

(** The statement of C4 fails: a triangle without ['area'] raises
    nothing; its record, its table row (with the text ["0"]) and its
    trace are produced. *)
Lemma missing_area_raises_nothing :
  no_area_particle !! "area" = None /\
  visualize_data (JsonList missing_area) one_row_tree
  = ({| tv_children := [{| iid := "I002"; values := ("B1", "Roof", "0") |}];
        tv_serial := 2;
        tv_heading := tv_heading one_row_tree |},
     Shown [Mesh3d Roof {| cx := [PyInt 0; PyInt 1; PyInt 0];
                           cy := [PyInt 0; PyInt 0; PyInt 1];
                           cz := [PyInt 0; PyInt 0; PyInt 0];
                           ci := [0]; cj := [1]; ck := [2] |}]).
Proof. split; vm_compute; reflexivity. Qed.

(** C4, amended: the call raises exactly when some triangle lacks one
    of its nine coordinates.  Then it raises [KeyError] for a missing
    coordinate, and nothing of the run is shown: the table is left as it
    was and there is no figure.  A missing ['nz'] or ['area'] alone
    raises nothing. *)
Theorem missing_coordinate_raises_KeyError :
  forall data tree,
    (well_formed data ->
       forall e, (visualize_data (JsonList data) tree).2 <> Raised e) /\
    (~ well_formed data ->
       exists b particle key,
         b ∈ data /\ particle ∈ triangles b /\
         key ∈ coordinate_keys /\ particle !! key = None /\
         visualize_data (JsonList data) tree = (tree, Raised (KeyError key))).
Proof.
  intros data tree. split.
  - intros Hwf e. by apply visualize_data_not_Raised.
  - apply visualize_data_Raise.
Qed.

Lemma missing_coordinate_raises_KeyError_witness :
  exists b particle key,
    b ∈ missing_x1 /\ particle ∈ triangles b /\
    key ∈ coordinate_keys /\ particle !! key = None /\
    visualize_data (JsonList missing_x1) one_row_tree
    = (one_row_tree, Raised (KeyError key)).
Proof.
  apply (proj2 (missing_coordinate_raises_KeyError missing_x1 one_row_tree)).
  intros H. apply (bool_decide_eq_true_2 _) in H. vm_compute in H. discriminate H.
Defined.

Example missing_x1_run :
  visualize_data (JsonList missing_x1) one_row_tree
  = (one_row_tree, Raised (KeyError "x1")).
Proof. vm_compute. reflexivity. Qed.

(** ** Sorting with a strict order *)

Lemma before_reverse {A} (a b : A) l : before a b l -> before b a (rev l).
Proof.
  intros (l1 & l2 & l3 & ->). exists (rev l3), (rev l2), (rev l1).
  rewrite !rev_app_distr. cbn [rev]. rewrite !rev_app_distr. cbn [rev].
  rewrite <- !app_assoc. reflexivity.
Qed.

Lemma before_elem_of {A} (a b : A) l : before a b l -> a ∈ l /\ b ∈ l.
Proof. intros (l1 & l2 & l3 & ->). set_solver. Qed.

Section Sorting.
Context {A : Type} (lt : A -> A -> bool).
Hypothesis lt_asym : forall a b, lt a b = true -> lt b a = false.
Hypothesis le_trans : forall a b c,
    not_after lt a b -> not_after lt b c -> not_after lt a c.

Lemma insert_sorted_Permutation x l : insert_sorted lt x l ≡ₚ x :: l.
Proof.
  induction l as [|y l IH]; cbn [insert_sorted]; [done|].
  destruct (lt y x); [|done]. rewrite IH. apply Permutation_swap.
Qed.

Lemma stable_sort_Permutation l : stable_sort lt l ≡ₚ l.
Proof.
  unfold stable_sort. induction l as [|x l IH]; cbn [foldr]; [done|].
  by rewrite insert_sorted_Permutation, IH.
Qed.

Lemma list_sort_Permutation reverse l : list_sort lt reverse l ≡ₚ l.
Proof.
  unfold list_sort. destruct reverse; [|apply stable_sort_Permutation].
  rewrite <- Permutation_rev, stable_sort_Permutation, <- Permutation_rev. done.
Qed.

Lemma insert_sorted_HdRel a x l :
  not_after lt a x -> HdRel (not_after lt) a l ->
  HdRel (not_after lt) a (insert_sorted lt x l).
Proof.
  intros Hax Hal. destruct l as [|y l]; cbn [insert_sorted].
  - by constructor.
  - apply HdRel_inv in Hal. destruct (lt y x); by constructor.
Qed.

Lemma insert_sorted_Sorted x l :
  Sorted (not_after lt) l -> Sorted (not_after lt) (insert_sorted lt x l).
Proof.
  induction 1 as [|y l Hl IH Hy]; cbn [insert_sorted].
  - repeat constructor.
  - destruct (lt y x) eqn:Hyx.
    + constructor; [done|]. apply insert_sorted_HdRel; [|done].
      unfold not_after. by apply lt_asym.
    + constructor; [by constructor|]. by constructor.
Qed.

Lemma stable_sort_StronglySorted l :
  StronglySorted (not_after lt) (stable_sort lt l).
Proof.
  apply Sorted_StronglySorted; [exact le_trans|].
  unfold stable_sort. induction l as [|x l IH]; cbn [foldr].
  - constructor.
  - by apply insert_sorted_Sorted.
Qed.

(** In a sorted list the smaller of two elements stands first. *)
Lemma StronglySorted_before a b l :
  StronglySorted (not_after lt) l ->
  a ∈ l -> b ∈ l -> lt a b = true -> before a b l.
Proof.
  intros Hl Ha Hb Hab.
  apply list_elem_of_split in Ha as (l1 & l2 & ->).
  apply elem_of_app in Hb as [Hb|Hb].
  - apply list_elem_of_split in Hb as (l1a & l1b & ->).
    rewrite <- app_assoc in Hl. cbn [app] in Hl.
    apply StronglySorted_app_1_r, StronglySorted_inv in Hl as [_ Hl].
    rewrite Forall_forall in Hl.
    assert (not_after lt b a) as Hba by (apply Hl; set_solver).
    unfold not_after in Hba. congruence.
  - apply elem_of_cons in Hb as [->|Hb].
    + pose proof (lt_asym _ _ Hab). congruence.
    + apply list_elem_of_split in Hb as (l2a & l2b & ->).
      exists l1, l2a, l2b. reflexivity.
Qed.

(** What [list.sort] guarantees for two elements of the list that
    compare [<]. *)
Lemma list_sort_before (reverse : bool) a b l :
  a ∈ l -> b ∈ l -> lt a b = true ->
  if reverse then before b a (list_sort lt true l)
  else before a b (list_sort lt false l).
Proof.
  intros Ha Hb Hab. destruct reverse; unfold list_sort.
  - apply before_reverse, StronglySorted_before;
      [apply stable_sort_StronglySorted| | |done];
      by rewrite stable_sort_Permutation, <- Permutation_rev.
  - apply StronglySorted_before;
      [apply stable_sort_StronglySorted| | |done];
      by rewrite stable_sort_Permutation.
Qed.
End Sorting.

(** Sorting the images under [f] is sorting with the comparison pulled
    back along [f]. *)
Lemma insert_sorted_map {A B} (f : A -> B) (lt : B -> B -> bool) x l :
  insert_sorted lt (f x) (map f l)
  = map f (insert_sorted (fun a b => lt (f a) (f b)) x l).
Proof.
  induction l as [|y l IH]; cbn [map insert_sorted]; [done|].
  destruct (lt (f y) (f x)); cbn [map]; by rewrite ?IH.
Qed.

Lemma stable_sort_map {A B} (f : A -> B) (lt : B -> B -> bool) l :
  stable_sort lt (map f l)
  = map f (stable_sort (fun a b => lt (f a) (f b)) l).
Proof.
  unfold stable_sort. induction l as [|x l IH]; cbn [map foldr]; [done|].
  by rewrite IH, insert_sorted_map.
Qed.

Lemma list_sort_map {A B} (f : A -> B) (lt : B -> B -> bool) reverse l :
  list_sort lt reverse (map f l)
  = map f (list_sort (fun a b => lt (f a) (f b)) reverse l).
Proof.
  unfold list_sort. destruct reverse; [|apply stable_sort_map].
  by rewrite <- map_rev, stable_sort_map, map_rev.
Qed.

(** ** The order of the keys *)

Lemma string_compare_refl s : String.compare s s = Eq.
Proof.
  pose proof (String.compare_antisym s s) as H.
  destruct (String.compare s s); simpl in H; congruence.
Qed.

Lemma string_ltb_leb s1 s2 : String.ltb s1 s2 = negb (String.leb s2 s1).
Proof.
  unfold String.ltb, String.leb. rewrite (String.compare_antisym s1 s2).
  destruct (String.compare s2 s1); reflexivity.
Qed.

Lemma string_ltb_false s1 s2 : String.ltb s1 s2 = false <-> String.le s2 s1.
Proof.
  rewrite string_ltb_leb, negb_false_iff. unfold String.le.
  by rewrite Is_true_true.
Qed.

Lemma string_ltb_true s1 s2 : String.ltb s1 s2 = true <-> ~ String.le s2 s1.
Proof. rewrite <- string_ltb_false. by destruct (String.ltb s1 s2). Qed.

Lemma string_ltb_asym s1 s2 : String.ltb s1 s2 = true -> String.ltb s2 s1 = false.
Proof.
  rewrite string_ltb_true, string_ltb_false. intros H.
  by destruct (total String.le s1 s2).
Qed.

Lemma string_not_after_trans s1 s2 s3 :
  String.ltb s2 s1 = false -> String.ltb s3 s2 = false -> String.ltb s3 s1 = false.
Proof. rewrite !string_ltb_false. intros. by etrans. Qed.

Global Instance string_KeyOrder : KeyOrder String.eqb String.ltb.
Proof.
  split.
  - apply String.eqb_refl.
  - intros a b. rewrite !String.eqb_eq. done.
  - intros a b c. rewrite !String.eqb_eq. congruence.
  - intros a b ->%String.eqb_eq. unfold String.ltb.
    by rewrite string_compare_refl.
  - intros a b c. rewrite !string_ltb_true. intros Hab Hbc Hca.
    destruct (total String.le a b) as [Hle|Hle]; [|done].
    apply Hbc. by etrans.
  - intros a b Hne%String.eqb_neq Hab%string_ltb_false.
    apply string_ltb_true. intros Hba. apply Hne. by apply (anti_symm String.le).
  - by intros a b c ->%String.eqb_eq.
  - by intros a b c ->%String.eqb_eq.
Qed.

Lemma Qeq_bool_false a b : Qeq_bool a b = false <-> ~ (a == b)%Q.
Proof. rewrite <- Qeq_bool_iff. by destruct (Qeq_bool a b). Qed.

Global Instance Q_KeyOrder : KeyOrder Qeq_bool Qltb.
Proof.
  split.
  - apply Qeq_bool_refl.
  - apply Qeq_bool_sym.
  - apply Qeq_bool_trans.
  - intros a b Hab%Qeq_bool_iff. apply Qltb_ge. lra.
  - intros a b c. rewrite !Qltb_lt. lra.
  - intros a b Hne%Qeq_bool_false Hab%Qltb_ge. apply Qltb_lt.
    destruct (Qlt_le_dec b a) as [|Hle]; [done|].
    destruct Hne. by apply Qle_antisym.
  - intros a b c Hab%Qeq_bool_iff.
    destruct (Qltb b c) eqn:H; [apply Qltb_lt in H; apply Qltb_lt
                               |apply Qltb_ge in H; apply Qltb_ge]; lra.
  - intros a b c Hab%Qeq_bool_iff.
    destruct (Qltb c b) eqn:H; [apply Qltb_lt in H; apply Qltb_lt
                               |apply Qltb_ge in H; apply Qltb_ge]; lra.
Qed.

Section TupleOrder.
Context {K} (eqb ltb : K -> K -> bool) `{!KeyOrder eqb ltb}.

Lemma key_ltb_asym a b : ltb a b = true -> ltb b a = false.
Proof.
  intros Hab. destruct (ltb b a) eqn:Hba; [|done].
  pose proof (key_ltb_trans _ _ _ Hab Hba) as Haa.
  by rewrite (key_ltb_irrefl a a (key_eqb_refl a)) in Haa.
Qed.

Lemma key_eqb_false_sym a b : eqb a b = false -> eqb b a = false.
Proof.
  intros H. destruct (eqb b a) eqn:Hba; [|done].
  by rewrite (key_eqb_sym _ _ Hba) in H.
Qed.

Lemma tuple_lt_asym a b :
  tuple_lt eqb ltb a b = true -> tuple_lt eqb ltb b a = false.
Proof.
  unfold tuple_lt. destruct (eqb a.1 b.1) eqn:Hab.
  - rewrite (key_eqb_sym _ _ Hab). apply string_ltb_asym.
  - rewrite (key_eqb_false_sym _ _ Hab). apply key_ltb_asym.
Qed.

Lemma tuple_not_after_trans a b c :
  not_after (tuple_lt eqb ltb) a b -> not_after (tuple_lt eqb ltb) b c ->
  not_after (tuple_lt eqb ltb) a c.
Proof.
  unfold not_after, tuple_lt.
  destruct (eqb b.1 a.1) eqn:Hba, (eqb c.1 b.1) eqn:Hcb.
  - rewrite (key_eqb_trans _ _ _ Hcb Hba). apply string_not_after_trans.
  - intros _ Hlt.
    destruct (eqb c.1 a.1) eqn:Hca.
    + pose proof (key_eqb_trans _ _ _ Hca (key_eqb_sym _ _ Hba)). congruence.
    + by rewrite <- (key_ltb_eqb_r _ _ c.1 Hba).
  - intros Hlt _.
    destruct (eqb c.1 a.1) eqn:Hca.
    + pose proof (key_eqb_trans _ _ _ (key_eqb_sym _ _ Hcb) Hca). congruence.
    + by rewrite (key_ltb_eqb_l _ _ a.1 Hcb).
  - intros Hlt1 Hlt2.
    pose proof (key_ltb_total _ _ Hba Hlt1) as Hab.
    pose proof (key_ltb_total _ _ Hcb Hlt2) as Hbc.
    pose proof (key_ltb_trans _ _ _ Hab Hbc) as Hac.
    destruct (eqb c.1 a.1) eqn:Hca.
    + by rewrite (key_ltb_irrefl _ _ (key_eqb_sym _ _ Hca)) in Hac.
    + by apply key_ltb_asym.
Qed.
End TupleOrder.

Lemma row_ltb_asym col r1 r2 : row_ltb col r1 r2 = true -> row_ltb col r2 r1 = false.
Proof. destruct col; apply tuple_lt_asym; apply _. Qed.

Lemma row_not_after_trans col r1 r2 r3 :
  not_after (row_ltb col) r1 r2 -> not_after (row_ltb col) r2 r3 ->
  not_after (row_ltb col) r1 r3.
Proof.
  destruct col; unfold not_after, row_ltb;
    apply (tuple_not_after_trans _ _ (_, _) (_, _) (_, _)).
Qed.

(** ** Moving the rows *)

Lemma has_iid_true item it : has_iid item it = true <-> iid it = item.
Proof. unfold has_iid. apply String.eqb_eq. Qed.

Lemma find_has_iid_None item l :
  item ∉ map iid l -> find (has_iid item) l = None.
Proof.
  induction l as [|it l IH]; cbn [map find]; [done|].
  rewrite not_elem_of_cons. intros [Hne Hl].
  destruct (has_iid item it) eqn:H; [|by apply IH].
  apply has_iid_true in H. congruence.
Qed.

Lemma find_has_iid_middle l1 it l2 :
  iid it ∉ map iid l1 ->
  find (has_iid (iid it)) (l1 ++ it :: l2) = Some it.
Proof.
  induction l1 as [|it' l1 IH]; cbn [map app find].
  - intros _. unfold has_iid. by rewrite String.eqb_refl.
  - rewrite not_elem_of_cons. intros [Hne Hl].
    destruct (has_iid (iid it) it') eqn:H; [|by apply IH].
    apply has_iid_true in H. congruence.
Qed.

Lemma filter_other_iid item l :
  item ∉ map iid l ->
  List.filter (fun it => negb (has_iid item it)) l = l.
Proof.
  induction l as [|it l IH]; cbn [map List.filter]; [done|].
  rewrite not_elem_of_cons. intros [Hne Hl].
  destruct (has_iid item it) eqn:H; cbn [negb].
  - apply has_iid_true in H. congruence.
  - by rewrite IH.
Qed.

Lemma filter_other_iid_middle l1 it l2 :
  NoDup (map iid (l1 ++ it :: l2)) ->
  List.filter (fun it' => negb (has_iid (iid it) it')) (l1 ++ it :: l2)
  = l1 ++ l2.
Proof.
  rewrite map_app. cbn [map].
  intros (Hl1 & Hdisj & Hl2)%NoDup_app. apply NoDup_cons in Hl2 as [Hit Hl2].
  rewrite List.filter_app. cbn [List.filter].
  unfold has_iid at 2. rewrite String.eqb_refl. cbn [negb].
  rewrite !filter_other_iid; [done|done|].
  intros Hin. apply (Hdisj _ Hin). apply list_elem_of_here.
Qed.

Lemma insert_at_middle {A} (x : A) l1 l2 :
  insert_at (length l1) x (l1 ++ l2) = l1 ++ x :: l2.
Proof. unfold insert_at. by rewrite take_app_length, drop_app_length. Qed.

(** Moving a row of the table to the end of a prefix of it. *)
Lemma tree_move_middle tree prefix r1 s r2 :
  tv_children tree = prefix ++ r1 ++ s :: r2 ->
  NoDup (get_children tree) ->
  tv_children (tree_move tree (iid s) (length prefix))
  = (prefix ++ [s]) ++ r1 ++ r2.
Proof.
  unfold get_children, tree_move. intros Hc Hnd. rewrite Hc in *.
  rewrite app_assoc in *.
  rewrite find_has_iid_middle.
  - cbn [tv_children]. rewrite filter_other_iid_middle by done.
    rewrite <- !app_assoc. rewrite insert_at_middle. reflexivity.
  - rewrite map_app in Hnd. cbn [map] in Hnd.
    apply NoDup_app in Hnd as (_ & Hdisj & _).
    intros Hin. apply (Hdisj _ Hin). apply list_elem_of_here.
Qed.

(** The loop of moves puts the rows in the order of the sorted list. *)
Lemma move_all_sorted sorted :
  forall tree prefix rest,
    tv_children tree = prefix ++ rest ->
    NoDup (get_children tree) ->
    sorted ≡ₚ rest ->
    tv_children (move_all tree (length prefix) (map iid sorted))
    = prefix ++ sorted.
Proof.
  induction sorted as [|s sorted IH]; intros tree prefix rest Hc Hnd Hperm;
    cbn [map move_all].
  - apply Permutation_nil_l in Hperm. by rewrite Hc, Hperm.
  - assert (s ∈ rest) as Hs by (rewrite <- Hperm; apply list_elem_of_here).
    apply list_elem_of_split in Hs as (r1 & r2 & ->).
    apply Permutation_cons_app_inv in Hperm.
    pose proof (tree_move_middle tree prefix r1 s r2 Hc Hnd) as Hmove.
    replace (S (length prefix)) with (length (prefix ++ [s]))
      by (rewrite length_app; cbn; lia).
    rewrite (IH _ (prefix ++ [s]) (r1 ++ r2) Hmove); [by rewrite <- app_assoc| |done].
    unfold get_children in *. rewrite Hmove. rewrite Hc in Hnd.
    eapply NoDup_Permutation_proper; [|exact Hnd].
    apply Permutation_map. rewrite <- !app_assoc. cbn [app].
    apply Permutation_app_head. apply Permutation_middle.
Qed.

Lemma move_all_heading items :
  forall tree idx, tv_heading (move_all tree idx items) = tv_heading tree.
Proof.
  induction items as [|item items IH]; intros tree idx; cbn [move_all]; [done|].
  rewrite IH. unfold tree_move. by destruct (find _ _).
Qed.

(** ** sortby in closed form *)

Lemma tree_set_child tree col it :
  NoDup (get_children tree) -> it ∈ tv_children tree ->
  tree_set tree (iid it) col = cell_of col it.
Proof.
  unfold get_children, tree_set. intros Hnd Hin.
  apply list_elem_of_split in Hin as (l1 & l2 & Hl). rewrite Hl in *.
  rewrite find_has_iid_middle; [done|].
  rewrite map_app in Hnd. cbn [map] in Hnd.
  apply NoDup_app in Hnd as (_ & Hdisj & _).
  intros Hin. apply (Hdisj _ Hin). apply list_elem_of_here.
Qed.

Lemma float_keys_rows l :
  Forall (fun it => exists q, float (cell_of Col_Area it) = Ok q) l ->
  float_keys (map (fun it => (cell_of Col_Area it, iid it)) l)
  = Ok (map (fun it => (area_key it, iid it)) l).
Proof.
  induction 1 as [|it l [q Hq] _ IH]; cbn [map float_keys]; [done|].
  cbn [fst snd]. unfold area_key at 1. rewrite Hq, IH. reflexivity.
Qed.

Lemma sorted_items_rows tree col descending :
  NoDup (get_children tree) ->
  (col = Col_Area -> numeric_areas tree) ->
  sorted_items tree col descending
  = Ok (map iid (list_sort (row_ltb col) descending (tv_children tree))).
Proof.
  intros Hnd Hnum. unfold sorted_items.
  assert (map (fun child => (tree_set tree child col, child)) (get_children tree)
          = map (fun it => (cell_of col it, iid it)) (tv_children tree)) as ->.
  { unfold get_children. rewrite map_map. apply map_ext_in.
    intros it Hin%list_elem_of_In. by rewrite tree_set_child. }
  destruct col.
  - rewrite list_sort_map, map_map. reflexivity.
  - rewrite list_sort_map, map_map. reflexivity.
  - rewrite float_keys_rows by (by apply Hnum). cbn [bind].
    rewrite list_sort_map, map_map. reflexivity.
Qed.

(** On a table with distinct item identifiers (and numbers in the Area
    column when that is the key), [sortby] returns, and the rows stand
    in the order in which [list.sort] puts their [(key, item)] tuples. *)
Lemma sortby_children tree col descending :
  NoDup (get_children tree) ->
  (col = Col_Area -> numeric_areas tree) ->
  exists tree',
    sortby tree col descending = Ok tree' /\
    tv_children tree'
    = list_sort (row_ltb col) descending (tv_children tree) /\
    tv_heading tree' col = negb descending.
Proof.
  intros Hnd Hnum. unfold sortby. rewrite sorted_items_rows by done. cbn [bind].
  eexists. split; [reflexivity|]. cbn [tree_heading tv_children tv_heading].
  split; [|by rewrite decide_True].
  apply (move_all_sorted _ tree [] (tv_children tree)); [done|done|].
  apply list_sort_Permutation.
Qed.

(** The rows of the sorted table, two by two. *)
Lemma sortby_before tree col (descending : bool) tree' r1 r2 :
  NoDup (get_children tree) ->
  (col = Col_Area -> numeric_areas tree) ->
  sortby tree col descending = Ok tree' ->
  r1 ∈ tv_children tree -> r2 ∈ tv_children tree ->
  row_ltb col r1 r2 = true ->
  if descending then before r2 r1 (tv_children tree')
  else before r1 r2 (tv_children tree').
Proof.
  intros Hnd Hnum Hs H1 H2 Hlt.
  destruct (sortby_children tree col descending Hnd Hnum) as (t & Ht & Hc & _).
  rewrite Ht in Hs. injection Hs as <-. rewrite Hc.
  pose proof (list_sort_before (row_ltb col) (row_ltb_asym col)
                (row_not_after_trans col) descending r1 r2 _ H1 H2 Hlt) as H.
  by destruct descending.
Qed.

Lemma area_key_float it q : float (cell_of Col_Area it) = Ok q -> area_key it = q.
Proof. unfold area_key. by intros ->. Qed.

(** The tuple comparison, in terms of the keys and the identifiers. *)
Lemma row_ltb_key_lt col r1 r2 : key_lt col r1 r2 -> row_ltb col r1 r2 = true.
Proof.
  unfold row_ltb, tuple_lt; destruct col; cbn [key_lt fst snd].
  - intros H. destruct (String.eqb _ _) eqn:He; [|done].
    by rewrite (key_ltb_irrefl _ _ He) in H.
  - intros H. destruct (String.eqb _ _) eqn:He; [|done].
    by rewrite (key_ltb_irrefl _ _ He) in H.
  - intros (a & b & ->%area_key_float & ->%area_key_float & Hab).
    assert (Qeq_bool a b = false) as -> by (apply Qeq_bool_false; lra).
    by apply Qltb_lt.
Qed.


(** ** Claims about sortby *)



Lemma inject_Z_is_double z : (Z.abs z < 2 ^ 53)%Z -> is_double (inject_Z z).
Proof.
  intros Hz. exists z, 0%Z. split; [done|]. split; [lia|].
  change (2 ^ 0)%Q with 1%Q. by rewrite Qmult_1_r.
Qed.


(** Two doubles in their order are kept apart. *)
Lemma float_keeps_apart_doubles a b :
  is_double a -> is_double b -> (a < b)%Q -> float_keeps_apart a b.
Proof. intros Ha Hb Hab. exists a, b. repeat split; try done; lra. Qed.



Lemma NoDup_tie_tree : NoDup (get_children tie_tree).
Proof. apply (bool_decide_unpack _). vm_compute. exact I. Defined.

Lemma numeric_areas_tie_tree : numeric_areas tie_tree.
Proof.
  unfold numeric_areas, tie_tree. cbn [tv_children].
  repeat constructor; eexists; vm_compute; reflexivity.
Defined.


(** Between 2^53 and 2^53 + 1 the only double is 2^53. *)
Lemma double_at_2_53 d :
  is_double d ->
  (inject_Z (2 ^ 53) <= d)%Q -> (d <= inject_Z (2 ^ 53 + 1))%Q ->
  (d == inject_Z (2 ^ 53))%Q.
Proof.
  intros (m & e & Hm & He & Hd) Hlo Hhi. rewrite Hd in *. clear d Hd.
  destruct (Z_le_gt_dec e 0) as [Hneg|Hpos].
  - exfalso.
    assert (2 ^ e == / 2 ^ (- e))%Q as Hinv
        by (rewrite <- (Z.opp_involutive e) at 1; apply Qpower.Qpower_opp).
    assert (1 <= 2 ^ (- e))%Q as Hp by (apply Qpower.Qpower_1_le; [lra|lia]).
    rewrite Hinv in Hlo.
    assert (inject_Z (2 ^ 53) * 2 ^ (- e) <= inject_Z m)%Q as H.
    { apply (Qmult_le_compat_r _ _ (2 ^ (- e))) in Hlo; [|lra].
      rewrite <- Qmult_assoc, (Qmult_comm (/ _)), Qmult_inv_r, Qmult_1_r in Hlo; [done|].
      lra. }
    assert (inject_Z m < inject_Z (2 ^ 53))%Q as Hm' by (rewrite <- Zlt_Qlt; lia).
    assert (0 <= inject_Z (2 ^ 53))%Q as H0 by (by rewrite <- (Zle_Qle 0)).
    nra.
  - assert (2 ^ e == inject_Z (2 ^ e))%Q as Hz
        by (rewrite (Qpower.Zpower_Qpower 2 e) by lia; reflexivity).
    rewrite Hz, <- inject_Z_mult in *.
    rewrite <- Zle_Qle in Hlo, Hhi.
    replace e with (Z.succ (e - 1)) in * by lia.
    rewrite Z.pow_succ_r in * by lia.
    apply inject_Z_injective.
    generalize dependent (2 ^ (e - 1))%Z. intros p Hlo Hhi _.
    assert (m * (2 * p) = 2 * (m * p))%Z as E by lia. rewrite E in *.
    generalize dependent (m * p)%Z. intros k. intros. lia.
Qed.

(** The numbers 9007199254740992 and 9007199254740993 are read as one
    double: the theorem above does not order their rows by key. *)
Example keys_that_rounding_merges :
  ~ float_keeps_apart (inject_Z 9007199254740992) (inject_Z 9007199254740993).
Proof.
  intros (d1 & d2 & H1 & H2 & Ha & H12 & Hb).
  change (inject_Z 9007199254740992) with (inject_Z (2 ^ 53)) in Ha.
  change (inject_Z 9007199254740993) with (inject_Z (2 ^ 53 + 1)) in Hb.
  set (lo := inject_Z (2 ^ 53)) in *. set (hi := inject_Z (2 ^ 53 + 1)) in *.
  assert (d1 == lo)%Q as E1 by (apply double_at_2_53; fold lo hi; [done|lra|lra]).
  assert (d2 == lo)%Q as E2 by (apply double_at_2_53; fold lo hi; [done|lra|lra]).
  lra.
Qed.

(** The areas 12.34 and 12.35, and 9 and 10, stay in their order. *)
Example keys_kept_apart :
  key_lt_float Col_Area row_1234 row_1235 /\
  float_keeps_apart 9 10.
Proof.
  split.
  - eexists _, _. split; [vm_compute; reflexivity|]. split; [vm_compute; reflexivity|].
    exists (395 # 32), (6321 # 512). split; [|split].
    + exists 395%Z, (-5)%Z. split; [done|]. split; [lia|]. reflexivity.
    + exists 6321%Z, (-9)%Z. split; [done|]. split; [lia|]. reflexivity.
    + repeat split; vm_compute; congruence.
  - apply float_keeps_apart_doubles; [| |lra].
    + apply (inject_Z_is_double 9). done.
    + apply (inject_Z_is_double 10). done.
Qed.

(** C6: in an ascending sort by Area the cells are compared as the
    numbers that [float] reads from their text: a row whose area is 9
    comes before a row whose area is 10. *)
Theorem sortby_Area_compares_numbers :
  forall tree r9 r10 q9 q10,
    NoDup (get_children tree) ->
    numeric_areas tree ->
    r9 ∈ tv_children tree ->
    r10 ∈ tv_children tree ->
    float (cell_of Col_Area r9) = Ok q9 -> (q9 == 9)%Q ->
    float (cell_of Col_Area r10) = Ok q10 -> (q10 == 10)%Q ->
    exists tree',
      sortby tree Col_Area false = Ok tree' /\
      before r9 r10 (tv_children tree').
Proof.
  intros tree r9 r10 q9 q10 Hnd Hnum H9 H10 Hf9 Hq9 Hf10 Hq10.
  destruct (sortby_children tree Col_Area false Hnd (fun _ => Hnum))
    as (tree' & Hs & _).
  exists tree'. split; [done|].
  apply (sortby_before tree Col_Area false tree' r9 r10); try done.
  apply row_ltb_key_lt. exists q9, q10. repeat split; try done. lra.
Qed.

Lemma NoDup_ten_nine_tree : NoDup (get_children ten_nine_tree).
Proof. apply (bool_decide_unpack _). vm_compute. exact I. Defined.

Lemma numeric_areas_ten_nine_tree : numeric_areas ten_nine_tree.
Proof.
  unfold numeric_areas, ten_nine_tree. cbn [tv_children].
  repeat constructor; eexists; vm_compute; reflexivity.
Defined.

Lemma sortby_Area_compares_numbers_witness :
  exists tree',
    sortby ten_nine_tree Col_Area false = Ok tree' /\
    before row_nine row_ten (tv_children tree').
Proof.
  apply (sortby_Area_compares_numbers ten_nine_tree row_nine row_ten 9 10).
  - exact NoDup_ten_nine_tree.
  - exact numeric_areas_ten_nine_tree.
  - unfold ten_nine_tree. cbn [tv_children]. set_solver.
  - unfold ten_nine_tree. cbn [tv_children]. set_solver.
  - vm_compute. reflexivity.
  - reflexivity.
  - vm_compute. reflexivity.
  - reflexivity.
Defined.

(** The same table sorted by a text column: ["10"] sorts before ["9"],
    as text does; sorted by Area, 9 sorts before 10. *)
Example text_and_number_order :
  String.ltb "10" "9" = true /\
  (exists tree', sortby ten_nine_tree Col_Building_ID false = Ok tree' /\
                 tv_children tree' = [row_ten; row_nine]) /\
  (exists tree', sortby ten_nine_tree Col_Area false = Ok tree' /\
                 tv_children tree' = [row_nine; row_ten]).
Proof.
  split; [reflexivity|]. split; eexists; split; reflexivity.
Qed.

(** * Further properties *)

(** ** The classifier, for any tolerance *)

(** X1: the class never moves down when [nz] grows: Floor, Wall, Roof
    come in this order along the [nz] axis, whatever the tolerance. *)
Theorem classify_surface_monotone :
  forall epsilon nz1 nz2 : Q,
    (nz1 <= nz2)%Q ->
    surface_rank (classify_surface nz1 epsilon)
    <= surface_rank (classify_surface nz2 epsilon).
Proof.
  intros epsilon nz1 nz2 Hle. unfold classify_surface.
  destruct (Qltb epsilon nz1) eqn:H1, (Qltb epsilon nz2) eqn:H2;
    destruct (Qltb nz1 (- epsilon)) eqn:H3, (Qltb nz2 (- epsilon)) eqn:H4;
    cbn [surface_rank]; try lia;
    repeat match goal with
      | H : Qltb _ _ = true |- _ => apply Qltb_lt in H
      | H : Qltb _ _ = false |- _ => apply Qltb_ge in H
      end; lra.
Qed.

Lemma classify_surface_monotone_witness :
  surface_rank (classify_surface (- 1) epsilon_default)
  <= surface_rank (classify_surface (1 # 2) epsilon_default).
Proof.
  apply (classify_surface_monotone epsilon_default (- 1) (1 # 2)).
  vm_compute. discriminate.
Defined.

(** X2: Wall can be returned exactly when the tolerance is not
    negative; with a negative tolerance every [nz] is Roof or Floor. *)
Theorem classify_surface_Wall_reachable :
  forall epsilon : Q,
    (exists nz, classify_surface nz epsilon = Wall) <-> (0 <= epsilon)%Q.
Proof.
  intros epsilon. split.
  - intros [nz H]. apply classify_Wall in H. lra.
  - intros H. exists 0%Q. apply classify_Wall. lra.
Qed.

(** ** The loop, seen from its result *)

Lemma collect_Ok_inv data infos coords :
  collect data = Ok (infos, coords) ->
  well_formed data /\
  infos = flat_map records data /\
  coords = foldl push initial_coords (all_triangles data).
Proof.
  intros H. destruct (decide (well_formed data)) as [Hwf|Hbad].
  - rewrite collect_Ok in H by done. by simplify_eq.
  - destruct (collect_Raise data Hbad) as (? & ? & ? & _ & _ & _ & _ & Hr).
    congruence.
Qed.

Lemma first_missing_None particle :
  first_missing particle = None <-> has_coordinates particle.
Proof.
  unfold first_missing, has_coordinates. rewrite Forall_forall. split.
  - intros H key Hkey%list_elem_of_In.
    pose proof (find_none _ _ H key Hkey) as Hb. cbn beta in Hb.
    apply bool_decide_eq_false in Hb. by apply not_eq_None_Some.
  - intros H. destruct (List.find _ _) as [key|] eqn:Hf; [|done].
    apply find_some in Hf as [Hin Hb%bool_decide_eq_true].
    apply list_elem_of_In, H in Hin as [v Hv]. congruence.
Qed.

Ltac read_first particle key :=
  cbn [List.find];
  destruct (particle !! key) eqn:?;
  [ rewrite (bool_decide_eq_false_2 (_ = None)) by done; cbn [bind]
  | rewrite (bool_decide_eq_true_2 (_ = None)) by done;
    eexists; split; reflexivity ].

(** A turn of the loop that raises names the first coordinate that the
    particle lacks. *)
Lemma process_particle_Raise_first building_id idx particle st :
  ~ has_coordinates particle ->
  exists key,
    first_missing particle = Some key /\
    process_particle building_id idx particle st = Raise (KeyError key).
Proof.
  intros Hbad. destruct st as [infos coords].
  unfold process_particle, first_missing, coordinate_keys, getitem.
  read_first particle "x0". read_first particle "x1".
  read_first particle "x2". read_first particle "y0".
  read_first particle "y1". read_first particle "y2".
  read_first particle "z0". read_first particle "z1".
  read_first particle "z2".
  destruct Hbad. unfold has_coordinates, coordinate_keys.
  repeat (apply Forall_cons; split; [eauto|]). apply Forall_nil_2.
Qed.

Lemma process_particles_Raise_first building_id particles :
  ~ Forall has_coordinates particles ->
  forall idx st,
    exists good particle rest key,
      particles = good ++ particle :: rest /\
      Forall has_coordinates good /\
      first_missing particle = Some key /\
      process_particles building_id idx particles st = Raise (KeyError key).
Proof.
  induction particles as [|p particles IH]; intros Hbad idx [infos coords].
  - destruct Hbad. constructor.
  - cbn [process_particles].
    destruct (decide (has_coordinates p)) as [Hp|Hp].
    + rewrite process_particle_Ok by done. cbn [bind].
      destruct (IH (fun H => Hbad (Forall_cons_2 _ _ _ Hp H)) (S idx)
                  (infos ++ [info_of building_id idx p], push coords p))
        as (good & q & rest & key & -> & Hgood & Hkey & Hr).
      exists (p :: good), q, rest, key. repeat split; try done.
      by constructor.
    + destruct (process_particle_Raise_first building_id idx p (infos, coords) Hp)
        as (key & Hkey & ->).
      exists [], p, particles, key. repeat split; try done.
Qed.

Lemma process_buildings_Raise_first data :
  ~ well_formed data ->
  forall st,
    exists good particle rest key,
      all_triangles data = good ++ particle :: rest /\
      Forall has_coordinates good /\
      first_missing particle = Some key /\
      process_buildings data st = Raise (KeyError key).
Proof.
  unfold all_triangles.
  induction data as [|b data IH]; intros Hbad [infos coords].
  - destruct Hbad. constructor.
  - cbn [process_buildings flat_map].
    destruct (decide (Forall has_coordinates (triangles b))) as [Hb|Hb].
    + rewrite process_building_Ok by done. cbn [bind].
      destruct (IH (fun H => Hbad (Forall_cons_2 _ _ _ Hb H))
                  (infos ++ records b, foldl push coords (triangles b)))
        as (good & q & rest & key & -> & Hgood & Hkey & Hr).
      exists (triangles b ++ good), q, rest, key.
      rewrite <- app_assoc. repeat split; try done. by apply Forall_app.
    + destruct (process_particles_Raise_first (default "Unknown" (ehr b)) _ Hb 0
                  (infos, coords)) as (good & q & rest & key & Heq & Hgood & Hkey & Hr).
      exists good, q, (rest ++ flat_map triangles data), key.
      rewrite Heq, <- app_assoc. repeat split; try done.
      unfold process_building. fold (triangles b). by rewrite Hr.
Qed.

(** The first element of a list that fails a test, and what stands
    before it, are determined by the list. *)
Lemma first_failure_unique {A} (P : A -> Prop) good1 x1 rest1 good2 x2 rest2 :
  good1 ++ x1 :: rest1 = good2 ++ x2 :: rest2 ->
  Forall P good1 -> ~ P x1 -> Forall P good2 -> ~ P x2 ->
  good1 = good2 /\ x1 = x2.
Proof.
  revert good2. induction good1 as [|a good1 IH]; intros [|b good2] Heq H1 Hx1 H2 Hx2;
    simplify_eq/=.
  - done.
  - by apply Forall_cons in H2 as [? _].
  - by apply Forall_cons in H1 as [? _].
  - apply Forall_cons in H1 as [_ H1]. apply Forall_cons in H2 as [_ H2].
    destruct (IH good2) as [-> ->]; done.
Qed.

Lemma first_missing_Some particle key :
  first_missing particle = Some key ->
  ~ has_coordinates particle /\ key ∈ coordinate_keys /\ particle !! key = None.
Proof.
  intros H. split.
  - intros Hc%first_missing_None. congruence.
  - unfold first_missing in H. apply find_some in H as [Hin Hb].
    split; [by apply list_elem_of_In|]. by apply bool_decide_eq_true in Hb.
Qed.

Lemma visualize_data_names_first_missing_aux data tree :
  ~ well_formed data ->
  exists good particle rest key,
    all_triangles data = good ++ particle :: rest /\
    Forall has_coordinates good /\
    first_missing particle = Some key /\
    visualize_data (JsonList data) tree = (tree, Raised (KeyError key)).
Proof.
  intros Hbad.
  destruct (process_buildings_Raise_first data Hbad ([], initial_coords))
    as (good & p & rest & key & Heq & Hgood & Hkey & Hr).
  exists good, p, rest, key. repeat split; try done.
  unfold visualize_data, collect. by rewrite Hr.
Qed.

(** X3: the exception of a run names the first missing coordinate, in
    reading order [x0 x1 x2 y0 y1 y2 z0 z1 z2], of the first triangle of
    the input that lacks one; all triangles before it had theirs.  The
    table is left as it was. *)
Theorem visualize_data_names_first_missing :
  forall data tree,
    ~ well_formed data ->
    exists good particle rest key,
      all_triangles data = good ++ particle :: rest /\
      Forall has_coordinates good /\
      first_missing particle = Some key /\
      visualize_data (JsonList data) tree = (tree, Raised (KeyError key)).
Proof.
  intros data tree Hbad.
  destruct (process_buildings_Raise_first data Hbad ([], initial_coords))
    as (good & p & rest & key & Heq & Hgood & Hkey & Hr).
  exists good, p, rest, key. split; [done|]. split; [done|]. split; [done|].
  unfold visualize_data, collect. by rewrite Hr.
Qed.

Lemma visualize_data_names_first_missing_witness :
  exists good particle rest key,
    all_triangles two_deficient = good ++ particle :: rest /\
    Forall has_coordinates good /\
    first_missing particle = Some key /\
    visualize_data (JsonList two_deficient) one_row_tree
    = (one_row_tree, Raised (KeyError key)).
Proof.
  apply (visualize_data_names_first_missing two_deficient one_row_tree).
  intros H. apply (bool_decide_eq_true_2 _) in H. vm_compute in H. discriminate H.
Defined.

Example two_deficient_run :
  visualize_data (JsonList two_deficient) one_row_tree
  = (one_row_tree, Raised (KeyError "x1")) /\
  first_missing (delete "z2" (delete "y0" roof_particle)) = Some "y0".
Proof. split; vm_compute; reflexivity. Qed.

(** X4: how a call ends depends only on the sequence of all triangles,
    not on how the triangles are grouped into buildings: the same
    figure, the same message or the same exception. *)
Theorem visualize_data_outcome_regrouped :
  forall data1 data2 tree1 tree2,
    all_triangles data1 = all_triangles data2 ->
    (visualize_data (JsonList data1) tree1).2
    = (visualize_data (JsonList data2) tree2).2.
Proof.
  intros data1 data2 tree1 tree2 Heq.
  destruct (decide (well_formed data1)) as [H1|H1].
  - assert (well_formed data2) as H2
        by (apply well_formed_all_triangles; rewrite <- Heq;
            by apply well_formed_all_triangles).
    rewrite !visualize_data_Ok by done. cbn [snd]. by rewrite Heq.
  - assert (~ well_formed data2) as H2.
    { intros H2. apply H1, well_formed_all_triangles. rewrite Heq.
      by apply well_formed_all_triangles. }
    destruct (visualize_data_names_first_missing_aux data1 tree1 H1)
      as (g1 & p1 & r1 & k1 & E1 & G1 & K1 & ->).
    destruct (visualize_data_names_first_missing_aux data2 tree2 H2)
      as (g2 & p2 & r2 & k2 & E2 & G2 & K2 & ->).
    cbn [snd]. rewrite E1, E2 in Heq.
    apply first_missing_Some in K1 as K1'. apply first_missing_Some in K2 as K2'.
    destruct (first_failure_unique has_coordinates _ _ _ _ _ _ Heq)
      as [_ ->]; try tauto.
    congruence.
Qed.

Lemma visualize_data_outcome_regrouped_witness :
  (visualize_data (JsonList roof_and_floor) empty_tree).2
  = (visualize_data (JsonList roof_then_floor) one_row_tree).2.
Proof.
  apply (visualize_data_outcome_regrouped roof_and_floor roof_then_floor).
  reflexivity.
Defined.

(** ** The figure and the catalog together *)

Lemma triangles_of_class_nil data :
  (forall s, triangles_of_class s data = []) <-> all_triangles data = [].
Proof.
  unfold triangles_of_class. split.
  - intros H. destruct (all_triangles data) as [|p l] eqn:E; [done|].
    specialize (H (surface_of p)). rewrite filter_cons_True in H by done. done.
  - by intros ->.
Qed.

Lemma make_meshes_nil data :
  make_meshes (foldl push initial_coords (all_triangles data)) = []
  <-> all_triangles data = [].
Proof.
  rewrite <- triangles_of_class_nil. split.
  - intros H s.
    destruct (triangles_of_class s data) as [|p l] eqn:E; [done|].
    assert (Mesh3d s (coords_get (foldl push initial_coords (all_triangles data)) s)
            ∈ make_meshes (foldl push initial_coords (all_triangles data))) as Hin.
    { apply elem_of_make_meshes. exists s. split; [|done].
      destruct (collected_buffer data s) as (-> & _). by rewrite E. }
    rewrite H in Hin. by apply elem_of_nil in Hin.
  - intros H. destruct (make_meshes _) as [|m l] eqn:E; [done|].
    assert (m ∈ make_meshes (foldl push initial_coords (all_triangles data)))
      as (s & Hx & _)%elem_of_make_meshes by (rewrite E; apply list_elem_of_here).
    destruct Hx. destruct (collected_buffer data s) as (-> & _). by rewrite H.
Qed.

Lemma delete_all_frame ids :
  forall tree,
    tv_serial (fold_left tree_delete ids tree) = tv_serial tree /\
    tv_heading (fold_left tree_delete ids tree) = tv_heading tree.
Proof.
  induction ids as [|i ids IH]; intros tree; [done|].
  cbn [fold_left]. destruct (IH (tree_delete tree i)) as [-> ->]. done.
Qed.

(** X5: a call on a list of buildings shows a figure exactly when every
    triangle has its coordinates and there is at least one triangle;
    with no triangle at all it empties the table, prints that there is
    nothing to visualize and shows nothing. *)
Theorem visualize_data_outcomes :
  forall data tree,
    ((exists figure, (visualize_data (JsonList data) tree).2 = Shown figure)
     <-> well_formed data /\ all_triangles data <> []) /\
    (visualize_data (JsonList data) tree
     = ({| tv_children := []; tv_serial := tv_serial tree;
           tv_heading := tv_heading tree |},
        Printed "No particle data available to visualize.")
     <-> well_formed data /\ all_triangles data = []).
Proof.
  intros data tree. destruct (decide (well_formed data)) as [Hwf|Hbad].
  - rewrite visualize_data_Ok by done. cbn [snd].
    pose proof (make_meshes_nil data) as Hnil.
    destruct (make_meshes _) as [|m l] eqn:E.
    + assert (all_triangles data = []) as Hno by by apply Hnil.
      split.
      * split; [by intros [? ?]|]. by intros [_ ?].
      * split; [done|]. intros _. f_equal.
        assert (flat_map records data = []) as ->.
        { apply length_zero_iff_nil. by rewrite length_flat_map_records, Hno. }
        unfold update_treeview. cbn [fold_left].
        set (t := fold_left tree_delete _ _).
        assert (tv_children t = []) as Hc.
        { subst t. apply tv_children_delete_all. intros it Hit.
          unfold get_children. by apply list_elem_of_fmap_2. }
        assert (tv_serial t = tv_serial tree /\ tv_heading t = tv_heading tree)
          as [Hs Hh].
        { subst t. apply delete_all_frame. }
        destruct t. cbn in *. by subst.
    + assert (all_triangles data <> []) as Hsome.
      { intros H. apply Hnil in H. done. }
      split.
      * split; [done|]. intros _. by eexists.
      * split; [intros H; simplify_eq|]. by intros [_ ?].
  - destruct (visualize_data_Raise data tree Hbad) as (? & ? & ? & _ & _ & _ & _ & ->).
    cbn [snd]. split; split; try (by intros [? ?]); try done.
Qed.

Lemma length_filter_imap {A B} (P : B -> Prop) `{!forall b, Decision (P b)}
    (Q : A -> Prop) `{!forall a, Decision (Q a)} (l : list A) :
  forall f : nat -> A -> B,
    (forall i a, P (f i a) <-> Q a) ->
    length (filter P (imap f l)) = length (filter Q l).
Proof.
  induction l as [|a l IH]; intros f Hf; [done|].
  cbn [imap]. rewrite !filter_cons.
  assert (forall i b, P ((f ∘ S) i b) <-> Q b) as Hf' by (intros; apply Hf).
  pose proof (IH _ Hf') as IH'.
  destruct (decide (P (f 0 a))) as [HP|HP], (decide (Q a)) as [HQ|HQ];
    cbn [length];
    [by rewrite IH' | by apply Hf in HP | exfalso; by apply HP, Hf | done].
Qed.

Lemma length_filter_records data s :
  length (filter (fun r => Surface_Type r = s) (flat_map records data))
  = length (triangles_of_class s data).
Proof.
  unfold triangles_of_class, all_triangles.
  induction data as [|b data IH]; [done|].
  cbn [flat_map]. rewrite !filter_app, !length_app, IH. f_equal.
  unfold records. apply length_filter_imap. done.
Qed.

(** X6: the figure and the catalog agree: the buffer of a class holds
    as many triangles as the catalog has records of that class, so the
    three buffers together hold one triangle per record. *)
Theorem buffers_match_catalog :
  forall data,
    well_formed data ->
    exists infos coords,
      collect data = Ok (infos, coords) /\
      (forall s,
         length (ci (coords_get coords s))
         = length (filter (fun r => Surface_Type r = s) infos)) /\
      length (ci (coords_Roof coords)) + length (ci (coords_Wall coords))
      + length (ci (coords_Floor coords)) = length infos.
Proof.
  intros data Hwf. eexists _, _. split; [by apply collect_Ok|].
  assert (forall s,
            length (ci (coords_get (foldl push initial_coords (all_triangles data)) s))
            = length (filter (fun r => Surface_Type r = s) (flat_map records data)))
    as Hs.
  { intros s. destruct (collected_buffer data s) as (_ & _ & _ & -> & _).
    by rewrite length_map, length_seq, length_filter_records. }
  split; [exact Hs|].
  rewrite (Hs Roof : length (ci (coords_Roof _)) = _),
          (Hs Wall : length (ci (coords_Wall _)) = _),
          (Hs Floor : length (ci (coords_Floor _)) = _).
  generalize (flat_map records data). intros l.
  induction l as [|r l IH]; [done|].
  rewrite !filter_cons. destruct (Surface_Type r);
    repeat (case_decide; try done); cbn [length]; lia.
Qed.

Lemma buffers_match_catalog_witness :
  exists infos coords,
    collect roof_then_floor = Ok (infos, coords) /\
    (forall s,
       length (ci (coords_get coords s))
       = length (filter (fun r => Surface_Type r = s) infos)) /\
    length (ci (coords_Roof coords)) + length (ci (coords_Wall coords))
    + length (ci (coords_Floor coords)) = length infos.
Proof.
  apply (buffers_match_catalog roof_then_floor).
  apply well_formed_bool_decide. vm_compute. reflexivity.
Defined.

(** ** Inputs put one after the other *)

Lemma process_buildings_app data1 data2 st :
  process_buildings (data1 ++ data2) st
  = (st' <- process_buildings data1 st ;; process_buildings data2 st').
Proof.
  revert st. induction data1 as [|b data1 IH]; intros st; [done|].
  cbn [app process_buildings]. destruct (process_building b st); cbn [bind]; auto.
Qed.

Lemma all_triangles_app data1 data2 :
  all_triangles (data1 ++ data2) = all_triangles data1 ++ all_triangles data2.
Proof. unfold all_triangles. apply flat_map_app. Qed.

Lemma well_formed_app data1 data2 :
  well_formed (data1 ++ data2) <-> well_formed data1 /\ well_formed data2.
Proof. unfold well_formed. apply Forall_app. Qed.

Lemma triangles_of_class_app s data1 data2 :
  triangles_of_class s (data1 ++ data2)
  = triangles_of_class s data1 ++ triangles_of_class s data2.
Proof. unfold triangles_of_class. by rewrite all_triangles_app, filter_app. Qed.

Lemma map_seq_app (f : nat -> nat) n1 n2 :
  map f (seq 0 (n1 + n2)) = map f (seq 0 n1) ++ map (fun t => f (n1 + t)) (seq 0 n2).
Proof.
  rewrite seq_app, map_app. f_equal. cbn [Nat.add].
  revert n1. induction n2 as [|n2 IH]; intros n1; [done|].
  cbn [seq map]. rewrite Nat.add_0_r. f_equal.
  rewrite (IH (S n1)), <- seq_shift, map_map.
  apply map_ext. intros t. f_equal. lia.
Qed.

(** X7: a run on two inputs put one after the other gives the catalog
    of the first followed by the catalog of the second, and in every
    class the vertices of the first followed by those of the second,
    the index triples of the second shifted by the number of vertices
    that the first put into that class. *)
Theorem collect_app :
  forall data1 data2 infos1 coords1 infos2 coords2,
    collect data1 = Ok (infos1, coords1) ->
    collect data2 = Ok (infos2, coords2) ->
    exists coords,
      collect (data1 ++ data2) = Ok (infos1 ++ infos2, coords) /\
      forall s,
        let c1 := coords_get coords1 s in
        let c2 := coords_get coords2 s in
        let c := coords_get coords s in
        (cx c = cx c1 ++ cx c2 /\ cy c = cy c1 ++ cy c2 /\ cz c = cz c1 ++ cz c2) /\
        ci c = ci c1 ++ map (fun n => length (cx c1) + n) (ci c2) /\
        cj c = cj c1 ++ map (fun n => length (cx c1) + n) (cj c2) /\
        ck c = ck c1 ++ map (fun n => length (cx c1) + n) (ck c2).
Proof.
  intros data1 data2 infos1 coords1 infos2 coords2
         (Hwf1 & -> & ->)%collect_Ok_inv (Hwf2 & -> & ->)%collect_Ok_inv.
  eexists. split.
  - rewrite collect_Ok by (by apply well_formed_app). by rewrite flat_map_app.
  - intros s c1 c2 c. subst c1 c2 c.
    destruct (collected_buffer data1 s) as (-> & -> & -> & -> & -> & ->).
    destruct (collected_buffer data2 s) as (-> & -> & -> & -> & -> & ->).
    destruct (collected_buffer (data1 ++ data2) s) as (-> & -> & -> & -> & -> & ->).
    rewrite triangles_of_class_app, !flat_map_app, length_app, !map_seq_app.
    rewrite length_flat_map_triple, !map_map.
    repeat split; f_equal; apply map_ext; intros t; lia.
Qed.

Lemma collect_app_witness :
  exists coords,
    collect (one_roof ++ roof_then_floor)
    = Ok ([{| Building_ID := "B1"; Surface_Type := Roof;
              Area := PyFloat 4 "4.0"; Index := 0 |}]
          ++ [{| Building_ID := "B1"; Surface_Type := Roof;
                 Area := PyFloat 4 "4.0"; Index := 0 |};
              {| Building_ID := "B2"; Surface_Type := Floor;
                 Area := PyFloat 4 "4.0"; Index := 0 |}], coords) /\
    forall s,
      let c1 := coords_get
                  (coords_set initial_coords Roof
                     {| cx := [PyInt 0; PyInt 1; PyInt 0];
                        cy := [PyInt 0; PyInt 0; PyInt 1];
                        cz := [PyInt 0; PyInt 0; PyInt 0];
                        ci := [0]; cj := [1]; ck := [2] |}) s in
      let c2 := coords_get
                  (coords_set
                     (coords_set initial_coords Roof
                        {| cx := [PyInt 0; PyInt 1; PyInt 0];
                           cy := [PyInt 0; PyInt 0; PyInt 1];
                           cz := [PyInt 0; PyInt 0; PyInt 0];
                           ci := [0]; cj := [1]; ck := [2] |})
                     Floor
                     {| cx := [PyInt 0; PyInt 1; PyInt 0];
                        cy := [PyInt 0; PyInt 0; PyInt 1];
                        cz := [PyInt 0; PyInt 0; PyInt 0];
                        ci := [0]; cj := [1]; ck := [2] |}) s in
      let c := coords_get coords s in
      (cx c = cx c1 ++ cx c2 /\ cy c = cy c1 ++ cy c2 /\ cz c = cz c1 ++ cz c2) /\
      ci c = ci c1 ++ map (fun n => length (cx c1) + n) (ci c2) /\
      cj c = cj c1 ++ map (fun n => length (cx c1) + n) (cj c2) /\
      ck c = ck c1 ++ map (fun n => length (cx c1) + n) (ck c2).
Proof.
  apply (collect_app one_roof roof_then_floor); vm_compute; reflexivity.
Defined.

(** X8: what follows the first triangle without a coordinate is never
    looked at: when a run on an input raises, so does, with the same
    exception, the run on that input followed by any other, and the
    table is left as it was. *)
Theorem visualize_data_fails_fast :
  forall data1 data2 tree1 tree2 e,
    (visualize_data (JsonList data1) tree1).2 = Raised e ->
    visualize_data (JsonList (data1 ++ data2)) tree2 = (tree2, Raised e).
Proof.
  intros data1 data2 tree1 tree2 e. unfold visualize_data, collect.
  rewrite process_buildings_app.
  destruct (process_buildings data1 _) as [[infos coords]|e'] eqn:E; cbn [bind snd].
  - destruct (make_meshes coords); discriminate.
  - by intros [= ->].
Qed.

Lemma visualize_data_fails_fast_witness :
  visualize_data (JsonList (missing_x1 ++ two_deficient)) empty_tree
  = (empty_tree, Raised (KeyError "x1")).
Proof.
  apply (visualize_data_fails_fast missing_x1 two_deficient one_row_tree).
  vm_compute. reflexivity.
Defined.

(** ** The rows of a refreshed table *)

Lemma hex_upper_inj d1 d2 : hex_upper d1 = hex_upper d2 -> d1 = d2.
Proof.
  revert d2. induction d1 as [|d1 IH|d1 IH|d1 IH|d1 IH|d1 IH|d1 IH|d1 IH|d1 IH
                              |d1 IH|d1 IH|d1 IH|d1 IH|d1 IH|d1 IH|d1 IH|d1 IH];
    intros [] H; cbn [hex_upper] in H; try discriminate H; try reflexivity;
    injection H as H; f_equal; by apply IH.
Qed.

Lemma hex_upper_zeros_then k d :
  String.append (string_of_list_ascii (replicate k "0"%char)) (hex_upper d)
  = hex_upper (zeros_then k d).
Proof.
  unfold zeros_then. induction k as [|k IH]; [done|].
  cbn [replicate string_of_list_ascii Nat.iter hex_upper].
  change (String "0" (String.append (string_of_list_ascii (replicate k "0"%char))
                                    (hex_upper d))
          = String "0" (hex_upper (Nat.iter k Hexadecimal.D0 d))).
  by rewrite IH.
Qed.

Lemma unorm_zeros_then k d :
  Hexadecimal.unorm (zeros_then k d) = Hexadecimal.unorm d.
Proof. unfold zeros_then. induction k as [|k IH]; [done|]. exact IH. Qed.

Lemma unorm_to_hex_uint n :
  Hexadecimal.unorm (N.to_hex_uint n) = N.to_hex_uint n.
Proof.
  rewrite <- (HexadecimalN.Unsigned.to_of (N.to_hex_uint n)).
  by rewrite HexadecimalN.Unsigned.of_to.
Qed.

(** Different counters give different identifiers. *)
Lemma item_id_inj n1 n2 : item_id n1 = item_id n2 -> n1 = n2.
Proof.
  unfold item_id. intros [= H]. rewrite !hex_upper_zeros_then in H.
  apply hex_upper_inj in H. apply (f_equal Hexadecimal.unorm) in H.
  rewrite !unorm_zeros_then, !unorm_to_hex_uint in H.
  by apply HexadecimalN.Unsigned.to_uint_inj.
Qed.

Lemma insert_all_frame infos :
  forall tree,
    let tree' := fold_left (fun tv si => tree_insert tv (row_of si)) infos tree in
    tv_serial tree' = (tv_serial tree + N.of_nat (length infos))%N /\
    tv_heading tree' = tv_heading tree /\
    get_children tree'
    = get_children tree
      ++ map (fun n => item_id (tv_serial tree + N.of_nat n)) (seq 1 (length infos)).
Proof.
  induction infos as [|si infos IH]; intros tree; cbn [fold_left length seq map].
  - rewrite N.add_0_r, app_nil_r. done.
  - destruct (IH (tree_insert tree (row_of si))) as (-> & -> & ->).
    unfold tree_insert, get_children. cbn [tv_serial tv_heading tv_children].
    rewrite map_app, <- app_assoc. cbn [map app].
    split; [rewrite Nat2N.inj_succ; lia|]. split; [done|]. cbn [iid]. do 2 f_equal.
    + f_equal. change (N.of_nat 1) with 1%N. lia.
    + rewrite <- (seq_shift _ 1), map_map. apply map_ext. intros n. f_equal.
      rewrite Nat2N.inj_succ. lia.
Qed.

(** X9: a successful refresh replaces all rows: the new rows get the
    identifiers of the next counter values, in order, so they are
    pairwise distinct; the counter advances by the number of triangles,
    and the sort directions kept by the column headers stay as they
    were. *)
Theorem visualize_data_fresh_rows :
  forall data tree,
    well_formed data ->
    let tree' := (visualize_data (JsonList data) tree).1 in
    let n := length (all_triangles data) in
    get_children tree'
    = map (fun i => item_id (tv_serial tree + N.of_nat i)) (seq 1 n) /\
    NoDup (get_children tree') /\
    tv_serial tree' = (tv_serial tree + N.of_nat n)%N /\
    tv_heading tree' = tv_heading tree.
Proof.
  intros data tree Hwf tree' n. subst tree' n.
  rewrite visualize_data_Ok by done. cbn [fst]. unfold update_treeview.
  pose proof (insert_all_frame (flat_map records data)
                (fold_left tree_delete (get_children tree) tree)) as (Hs & Hh & Hc).
  destruct (delete_all_frame (get_children tree) tree) as [Hs' Hh'].
  rewrite length_flat_map_records, Hs' in *.
  assert (get_children (fold_left tree_delete (get_children tree) tree) = []) as Hnil.
  { unfold get_children at 1. rewrite tv_children_delete_all; [done|].
    intros it Hit. unfold get_children. by apply list_elem_of_fmap_2. }
  rewrite Hnil in Hc. cbn [app] in Hc.
  split; [exact Hc|]. split; [|split; [exact Hs|by rewrite Hh]].
  rewrite Hc. apply (NoDup_fmap_2_strong _).
  - intros i j _ _ H%item_id_inj. lia.
  - apply NoDup_seq.
Qed.

Lemma visualize_data_fresh_rows_witness :
  let tree' := (visualize_data (JsonList roof_and_floor) one_row_tree).1 in
  let n := length (all_triangles roof_and_floor) in
  get_children tree'
  = map (fun i => item_id (tv_serial one_row_tree + N.of_nat i)) (seq 1 n) /\
  NoDup (get_children tree') /\
  tv_serial tree' = (tv_serial one_row_tree + N.of_nat n)%N /\
  tv_heading tree' = tv_heading one_row_tree.
Proof.
  apply (visualize_data_fresh_rows roof_and_floor one_row_tree).
  apply well_formed_bool_decide. vm_compute. reflexivity.
Defined.

(** ** The sorted order is unique *)

Lemma row_ltb_antisym col (l : list tree_item) r1 r2 :
  NoDup (map iid l) -> r1 ∈ l -> r2 ∈ l ->
  not_after (row_ltb col) r1 r2 -> not_after (row_ltb col) r2 r1 -> r1 = r2.
Proof.
  intros Hnd H1 H2 H12 H21.
  assert (iid r1 = iid r2) as Hid.
  { unfold not_after, row_ltb, tuple_lt in *. cbn [fst snd] in *.
    destruct col.
    - destruct (String.eqb (cell_of Col_Building_ID r2) (cell_of Col_Building_ID r1)) eqn:E.
      + rewrite (key_eqb_sym _ _ E) in H21.
        apply string_ltb_false in H12, H21. by apply (anti_symm String.le).
      + rewrite (key_eqb_false_sym String.eqb String.ltb _ _ E) in H21.
        by rewrite (key_ltb_total _ _ E H12) in H21.
    - destruct (String.eqb (cell_of Col_Surface_Type r2) (cell_of Col_Surface_Type r1)) eqn:E.
      + rewrite (key_eqb_sym _ _ E) in H21.
        apply string_ltb_false in H12, H21. by apply (anti_symm String.le).
      + rewrite (key_eqb_false_sym String.eqb String.ltb _ _ E) in H21.
        by rewrite (key_ltb_total _ _ E H12) in H21.
    - destruct (Qeq_bool (area_key r2) (area_key r1)) eqn:E.
      + rewrite (key_eqb_sym _ _ E) in H21.
        apply string_ltb_false in H12, H21. by apply (anti_symm String.le).
      + rewrite (key_eqb_false_sym Qeq_bool Qltb _ _ E) in H21.
        by rewrite (key_ltb_total _ _ E H12) in H21. }
  apply list_elem_of_lookup in H1 as [i Hi]. apply list_elem_of_lookup in H2 as [j Hj].
  assert (i = j) as ->.
  { apply (NoDup_lookup (map iid l) i j (iid r1)); [done| |].
    - change (map iid l) with (iid <$> l). by rewrite list_lookup_fmap, Hi.
    - change (map iid l) with (iid <$> l). by rewrite list_lookup_fmap, Hj, Hid. }
  congruence.
Qed.

Lemma stable_sort_rows_unique col l1 l2 :
  NoDup (map iid l1) -> l1 ≡ₚ l2 ->
  stable_sort (row_ltb col) l1 = stable_sort (row_ltb col) l2.
Proof.
  intros Hnd Hp.
  apply (StronglySorted_unique_strong (not_after (row_ltb col))).
  - intros r1 r2 H1 H2. apply (row_ltb_antisym col l1); [done| |].
    + by rewrite stable_sort_Permutation in H1.
    + by rewrite stable_sort_Permutation, <- Hp in H2.
  - apply stable_sort_StronglySorted; [apply row_ltb_asym|apply row_not_after_trans].
  - apply stable_sort_StronglySorted; [apply row_ltb_asym|apply row_not_after_trans].
  - by rewrite !stable_sort_Permutation.
Qed.

Lemma list_sort_rows_unique col (descending : bool) l1 l2 :
  NoDup (map iid l1) -> l1 ≡ₚ l2 ->
  list_sort (row_ltb col) descending l1 = list_sort (row_ltb col) descending l2.
Proof.
  intros Hnd Hp. unfold list_sort. destruct descending.
  - f_equal. apply stable_sort_rows_unique.
    + by rewrite map_rev, <- Permutation_rev.
    + by rewrite <- !Permutation_rev.
  - by apply stable_sort_rows_unique.
Qed.

Lemma list_sort_rows_reverse col l :
  NoDup (map iid l) ->
  list_sort (row_ltb col) true l = rev (list_sort (row_ltb col) false l).
Proof.
  intros Hnd. unfold list_sort. f_equal. apply stable_sort_rows_unique.
  - by rewrite map_rev, <- Permutation_rev.
  - by rewrite <- Permutation_rev.
Qed.

Lemma move_all_serial items :
  forall tree idx, tv_serial (move_all tree idx items) = tv_serial tree.
Proof.
  induction items as [|item items IH]; intros tree idx; cbn [move_all]; [done|].
  rewrite IH. unfold tree_move. by destruct (find _ _).
Qed.

(** What [sortby] leaves alone. *)
Lemma sortby_frame tree col descending tree' :
  sortby tree col descending = Ok tree' ->
  tv_serial tree' = tv_serial tree /\
  forall c, tv_heading tree' c
            = if decide (c = col) then negb descending else tv_heading tree c.
Proof.
  unfold sortby. destruct (sorted_items tree col descending) as [items|]; [|done].
  cbn [bind]. intros [= <-]. cbn [tree_heading tv_serial tv_heading].
  by rewrite move_all_serial, move_all_heading.
Qed.

Lemma numeric_areas_Permutation tree tree' :
  tv_children tree' ≡ₚ tv_children tree -> numeric_areas tree -> numeric_areas tree'.
Proof. unfold numeric_areas. by intros ->. Qed.

Lemma NoDup_get_children_Permutation tree tree' :
  tv_children tree' ≡ₚ tv_children tree ->
  NoDup (get_children tree) -> NoDup (get_children tree').
Proof. unfold get_children. by intros ->. Qed.

(** ** Further properties of sortby *)

(** X10: the order after a sort does not depend on the order before it:
    two tables with the same rows, in whatever order, show the same
    sequence of rows after the same sort. *)
Theorem sortby_forgets_previous_order :
  forall tree1 tree2 col (descending : bool),
    NoDup (get_children tree1) ->
    (col = Col_Area -> numeric_areas tree1) ->
    tv_children tree1 ≡ₚ tv_children tree2 ->
    exists sorted1 sorted2,
      sortby tree1 col descending = Ok sorted1 /\
      sortby tree2 col descending = Ok sorted2 /\
      tv_children sorted1 = tv_children sorted2.
Proof.
  intros tree1 tree2 col descending Hnd Hnum Hp.
  destruct (sortby_children tree1 col descending Hnd Hnum) as (s1 & Hs1 & Hc1 & _).
  assert (NoDup (get_children tree2)) as Hnd2
      by (by apply (NoDup_get_children_Permutation tree1)).
  assert (col = Col_Area -> numeric_areas tree2) as Hnum2
      by (intros Hc; by apply (numeric_areas_Permutation tree1), Hnum).
  destruct (sortby_children tree2 col descending Hnd2 Hnum2) as (s2 & Hs2 & Hc2 & _).
  exists s1, s2. split; [done|]. split; [done|]. rewrite Hc1, Hc2.
  by apply list_sort_rows_unique.
Qed.

Lemma sortby_forgets_previous_order_witness :
  exists sorted1 sorted2,
    sortby tie_tree Col_Area true = Ok sorted1 /\
    sortby tie_tree_swapped Col_Area true = Ok sorted2 /\
    tv_children sorted1 = tv_children sorted2.
Proof.
  apply (sortby_forgets_previous_order tie_tree tie_tree_swapped Col_Area true).
  - exact NoDup_tie_tree.
  - intros _. exact numeric_areas_tie_tree.
  - apply Permutation_swap.
Defined.

(** X11: sorting a second time by the same column in the same direction
    changes nothing in the order of the rows. *)
Theorem sortby_idempotent :
  forall tree col (descending : bool),
    NoDup (get_children tree) ->
    (col = Col_Area -> numeric_areas tree) ->
    exists once twice,
      sortby tree col descending = Ok once /\
      sortby once col descending = Ok twice /\
      tv_children twice = tv_children once.
Proof.
  intros tree col descending Hnd Hnum.
  destruct (sortby_children tree col descending Hnd Hnum) as (s1 & Hs1 & Hc1 & _).
  assert (tv_children s1 ≡ₚ tv_children tree) as Hp
      by (rewrite Hc1; apply list_sort_Permutation).
  assert (NoDup (get_children s1)) as Hnd1
      by (by apply (NoDup_get_children_Permutation tree)).
  assert (col = Col_Area -> numeric_areas s1) as Hnum1
      by (intros Hc; by apply (numeric_areas_Permutation tree), Hnum).
  destruct (sortby_children s1 col descending Hnd1 Hnum1) as (s2 & Hs2 & Hc2 & _).
  exists s1, s2. split; [done|]. split; [done|]. rewrite Hc2.
  rewrite (list_sort_rows_unique col descending (tv_children s1) (tv_children tree)
             Hnd1 Hp).
  by rewrite Hc1.
Qed.

Lemma sortby_idempotent_witness :
  exists once twice,
    sortby tie_tree Col_Area true = Ok once /\
    sortby once Col_Area true = Ok twice /\
    tv_children twice = tv_children once.
Proof.
  apply (sortby_idempotent tie_tree Col_Area true).
  - exact NoDup_tie_tree.
  - intros _. exact numeric_areas_tie_tree.
Defined.

(** X12: the descending order is the ascending order read backwards,
    also where keys are equal. *)
Theorem sortby_descending_is_reverse :
  forall tree col,
    NoDup (get_children tree) ->
    (col = Col_Area -> numeric_areas tree) ->
    exists ascending descending,
      sortby tree col false = Ok ascending /\
      sortby tree col true = Ok descending /\
      tv_children descending = rev (tv_children ascending).
Proof.
  intros tree col Hnd Hnum.
  destruct (sortby_children tree col false Hnd Hnum) as (s1 & Hs1 & Hc1 & _).
  destruct (sortby_children tree col true Hnd Hnum) as (s2 & Hs2 & Hc2 & _).
  exists s1, s2. split; [done|]. split; [done|]. rewrite Hc1, Hc2.
  by apply list_sort_rows_reverse.
Qed.

Lemma sortby_descending_is_reverse_witness :
  exists ascending descending,
    sortby ten_nine_tree Col_Building_ID false = Ok ascending /\
    sortby ten_nine_tree Col_Building_ID true = Ok descending /\
    tv_children descending = rev (tv_children ascending).
Proof.
  apply (sortby_descending_is_reverse ten_nine_tree Col_Building_ID).
  - exact NoDup_ten_nine_tree.
  - discriminate.
Defined.

(** X13: two clicks on the same header: the second shows the rows in
    the reverse order of the first, and afterwards every header keeps
    the direction it had before the two clicks. *)
Theorem heading_command_twice :
  forall tree col,
    NoDup (get_children tree) ->
    (col = Col_Area -> numeric_areas tree) ->
    exists first second,
      heading_command tree col = Ok first /\
      heading_command first col = Ok second /\
      tv_children second = rev (tv_children first) /\
      tv_heading first col = negb (tv_heading tree col) /\
      (forall c, tv_heading second c = tv_heading tree c) /\
      (forall c, c <> col -> tv_heading first c = tv_heading tree c).
Proof.
  intros tree col Hnd Hnum. unfold heading_command.
  destruct (sortby_children tree col (tv_heading tree col) Hnd Hnum)
    as (s1 & Hs1 & Hc1 & Hh1).
  destruct (sortby_frame _ _ _ _ Hs1) as [_ Hf1].
  assert (tv_children s1 ≡ₚ tv_children tree) as Hp
      by (rewrite Hc1; apply list_sort_Permutation).
  assert (NoDup (get_children s1)) as Hnd1
      by (by apply (NoDup_get_children_Permutation tree)).
  assert (col = Col_Area -> numeric_areas s1) as Hnum1
      by (intros Hc; by apply (numeric_areas_Permutation tree), Hnum).
  destruct (sortby_children s1 col (tv_heading s1 col) Hnd1 Hnum1)
    as (s2 & Hs2 & Hc2 & Hh2).
  destruct (sortby_frame _ _ _ _ Hs2) as [_ Hf2].
  exists s1, s2. split; [done|]. split; [done|].
  split; [|split; [done|split]].
  - rewrite Hc2, Hh1.
    rewrite (list_sort_rows_unique col (negb (tv_heading tree col))
               (tv_children s1) (tv_children tree) Hnd1 Hp).
    rewrite Hc1.
    destruct (tv_heading tree col); cbn [negb].
    + rewrite (list_sort_rows_reverse col (tv_children tree)) by done.
      by rewrite rev_involutive.
    + by apply list_sort_rows_reverse.
  - intros c. rewrite Hf2, Hh1. case_decide as Hc.
    + subst c. by rewrite negb_involutive.
    + rewrite Hf1. by rewrite decide_False.
  - intros c Hc. rewrite Hf1. by rewrite decide_False.
Qed.

Lemma heading_command_twice_witness :
  exists first second,
    heading_command ten_nine_tree Col_Area = Ok first /\
    heading_command first Col_Area = Ok second /\
    tv_children second = rev (tv_children first) /\
    tv_heading first Col_Area = negb (tv_heading ten_nine_tree Col_Area) /\
    (forall c, tv_heading second c = tv_heading ten_nine_tree c) /\
    (forall c, c <> Col_Area -> tv_heading first c = tv_heading ten_nine_tree c).
Proof.
  apply (heading_command_twice ten_nine_tree Col_Area).
  - exact NoDup_ten_nine_tree.
  - intros _. exact numeric_areas_ten_nine_tree.
Defined.
(** ** Integers written and read back *)

Lemma N_of_digits_fold ds :
  forall acc,
    fold_left (fun acc d => 10 * acc + d)%N ds acc
    = (acc * 10 ^ N.of_nat (length ds) + N_of_digits ds)%N.
Proof.
  unfold N_of_digits. induction ds as [|d ds IH]; intros acc.
  - cbn. lia.
  - cbn [fold_left length]. rewrite IH, (IH (10 * 0 + d)%N).
    rewrite Nat2N.inj_succ, N.pow_succ_r'. lia.
Qed.

Lemma N_of_digits_snoc ds d : N_of_digits (ds ++ [d]) = (10 * N_of_digits ds + d)%N.
Proof. unfold N_of_digits. by rewrite fold_left_app. Qed.

Lemma digit_of_pretty_N_char d :
  (d < 10)%N -> digit_of (pretty_N_char d) = Some d.
Proof.
  intros H. destruct d as [|p]; [done|].
  do 4 (destruct p as [p|p|]; try done; try lia).
Qed.

Lemma span_digits_cons c d s ds rest :
  digit_of c = Some d -> span_digits s = (ds, rest) ->
  span_digits (String c s) = (d :: ds, rest).
Proof. intros Hc Hs. cbn [span_digits]. by rewrite Hc, Hs. Qed.

(** The digits that [pretty] writes in front of a text are read back
    as the number written. *)
Lemma span_digits_pretty_N_go x :
  forall s ds rest,
    span_digits s = (ds, rest) ->
    exists ds',
      span_digits (pretty_N_go x s) = (ds' ++ ds, rest) /\ N_of_digits ds' = x.
Proof.
  induction (N.lt_wf_0 x) as [x _ IH]. intros s ds rest Hs.
  destruct (decide (0 < x)%N) as [Hx|Hx].
  - rewrite pretty_N_go_step by done.
    assert (x `mod` 10 < 10)%N as Hm by (apply N.mod_lt; lia).
    destruct (IH (x `div` 10)%N (N.div_lt x 10 Hx eq_refl) _ _ _
                 (span_digits_cons _ _ _ _ _ (digit_of_pretty_N_char _ Hm) Hs))
      as (ds' & Hsp & Hval).
    exists (ds' ++ [x `mod` 10])%N. split.
    + by rewrite <- app_assoc.
    + rewrite N_of_digits_snoc, Hval. symmetry. apply N.div_mod. lia.
  - assert (x = 0%N) as -> by lia. exists []. by rewrite pretty_N_go_0.
Qed.

Lemma span_digits_pretty_N (n : N) :
  exists d ds, span_digits (pretty n) = (d :: ds, EmptyString)
               /\ N_of_digits (d :: ds) = n.
Proof.
  unfold pretty, pretty_N. case_decide as Hn.
  - subst n. by exists 0%N, [].
  - destruct (span_digits_pretty_N_go n EmptyString [] EmptyString eq_refl)
      as (ds & Hsp & Hval).
    rewrite app_nil_r in Hsp. destruct ds as [|d ds]; [by cbn in Hval|].
    by exists d, ds.
Qed.

Lemma split_sign_digit s d ds rest :
  span_digits s = (d :: ds, rest) -> split_sign s = (false, s).
Proof.
  destruct s as [|c s]; [done|]. cbn [span_digits].
  destruct (digit_of c) eqn:Hc; [|done]. intros _.
  destruct c as [[] [] [] [] [] [] [] []]; try reflexivity; discriminate Hc.
Qed.

Lemma float_digits s d ds (negative : bool) text :
  split_sign text = (negative, s) ->
  span_digits s = (d :: ds, EmptyString) ->
  float text
  = Ok (inject_Z (signed negative (N_of_digits (d :: ds))) * inject_Z 10 ^ 0)%Q.
Proof.
  intros Hsign Hsp. unfold float. rewrite Hsign, Hsp. cbn [app parse_exponent length].
  rewrite app_nil_r. reflexivity.
Qed.

(** The digits of a natural number, with or without a minus sign in
    front, read back as the number. *)
Lemma float_pretty_N (negative : bool) (n : N) :
  exists q,
    float ((if negative then "-" else "") +:+ pretty n) = Ok q /\
    (q == inject_Z (signed negative n))%Q.
Proof.
  destruct (span_digits_pretty_N n) as (d & ds & Hsp & Hval).
  eexists. split.
  - apply (float_digits (pretty n) d ds negative); [|done].
    destruct negative; [reflexivity|]. by eapply split_sign_digit.
  - rewrite Hval. change (inject_Z 10 ^ 0)%Q with 1%Q. apply Qmult_1_r.
Qed.

Lemma readable_int z : exists q, float (py_str (PyInt z)) = Ok q.
Proof.
  destruct z as [|p|p].
  - destruct (float_pretty_N false 0) as (q & Hq & _). by exists q.
  - destruct (float_pretty_N false (Npos p)) as (q & Hq & _). by exists q.
  - destruct (float_pretty_N true (Npos p)) as (q & Hq & _). by exists q.
Qed.

(** X15: the text that the table shows for an integer reads back, with
    [float], as that integer; stated for the integers that a Python
    float holds exactly. *)
Theorem float_py_str_int :
  forall z : Z,
    (Z.abs z <= 2 ^ 53)%Z ->
    exists q, float (py_str (PyInt z)) = Ok q /\ (q == inject_Z z)%Q.
Proof.
  intros z _. destruct z as [|p|p].
  - exact (float_pretty_N false 0).
  - exact (float_pretty_N false (Npos p)).
  - exact (float_pretty_N true (Npos p)).
Qed.

Lemma float_py_str_int_witness :
  exists q, float (py_str (PyInt (-120))) = Ok q /\ (q == inject_Z (-120))%Q.
Proof.
  apply (float_py_str_int (-120)). vm_compute. discriminate.
Defined.

(** ** Sorting the table that a run has filled *)

Lemma elem_of_records r data :
  r ∈ flat_map records data ->
  exists particle building_id idx,
    particle ∈ all_triangles data /\ r = info_of building_id idx particle.
Proof.
  rewrite list_elem_of_In, in_flat_map. intros (b & Hb & Hr).
  apply list_elem_of_In in Hr. unfold records in Hr.
  apply list_elem_of_lookup in Hr as [i Hi].
  rewrite list_lookup_imap in Hi.
  destruct (triangles b !! i) as [p|] eqn:Hp; [|done]. cbn in Hi. simplify_eq.
  exists p, (default "Unknown" (ehr b)), i. split; [|done].
  apply elem_of_all_triangles. exists b.
  split; [by apply list_elem_of_In|by eapply list_elem_of_lookup_2].
Qed.

Lemma numeric_areas_visualize_data data tree :
  well_formed data ->
  Forall readable_area (all_triangles data) ->
  numeric_areas (visualize_data (JsonList data) tree).1.
Proof.
  intros Hwf Hread. rewrite visualize_data_Ok by done. cbn [fst].
  unfold numeric_areas, cell_of.
  pose proof (update_treeview_rows (flat_map records data) tree) as Hrows.
  apply Forall_forall. intros it Hit.
  assert (values it ∈ map row_of (flat_map records data)) as Hv.
  { rewrite <- Hrows. by apply (list_elem_of_fmap_2 values). }
  apply (list_elem_of_fmap_1 row_of) in Hv as (r & -> & Hr).
  apply elem_of_records in Hr as (p & id & idx & Hp & ->).
  rewrite Forall_forall in Hread. exact (Hread p Hp).
Qed.

Lemma NoDup_get_children_visualize_data data tree :
  well_formed data -> NoDup (get_children (visualize_data (JsonList data) tree).1).
Proof.
  intros Hwf. rewrite visualize_data_Ok by done. cbn [fst]. unfold update_treeview.
  pose proof (insert_all_frame (flat_map records data)
                (fold_left tree_delete (get_children tree) tree)) as (_ & _ & Hc).
  assert (get_children (fold_left tree_delete (get_children tree) tree) = []) as Hnil.
  { unfold get_children at 1. rewrite tv_children_delete_all; [done|].
    intros it Hit. unfold get_children. by apply list_elem_of_fmap_2. }
  rewrite Hnil in Hc. cbn [app] in Hc. rewrite Hc.
  apply (NoDup_fmap_2_strong _); [|apply NoDup_seq].
  intros i j _ _ H%item_id_inj. lia.
Qed.

(** X16: the table that a successful run has filled can be sorted: by
    a text column always, and by Area when the text shown for every
    area reads back as a number; the sort returns the same rows in
    another order. *)
Theorem sortby_after_visualize_data :
  forall data tree col (descending : bool),
    well_formed data ->
    (col = Col_Area -> Forall readable_area (all_triangles data)) ->
    exists sorted,
      sortby (visualize_data (JsonList data) tree).1 col descending = Ok sorted /\
      tv_children sorted ≡ₚ tv_children (visualize_data (JsonList data) tree).1.
Proof.
  intros data tree col descending Hwf Hread.
  destruct (sortby_children (visualize_data (JsonList data) tree).1 col descending)
    as (sorted & Hs & Hc & _).
  - by apply NoDup_get_children_visualize_data.
  - intros Hcol. by apply numeric_areas_visualize_data, Hread.
  - exists sorted. split; [done|]. rewrite Hc. apply list_sort_Permutation.
Qed.

Lemma sortby_after_visualize_data_witness :
  exists sorted,
    sortby (visualize_data (JsonList roof_and_floor) one_row_tree).1 Col_Area true
    = Ok sorted /\
    tv_children sorted
    ≡ₚ tv_children (visualize_data (JsonList roof_and_floor) one_row_tree).1.
Proof.
  apply (sortby_after_visualize_data roof_and_floor one_row_tree Col_Area true).
  - apply well_formed_bool_decide. vm_compute. reflexivity.
  - intros _. repeat constructor; eexists; vm_compute; reflexivity.
Defined.

(** X17: a catalog whose areas are all integers (a missing area counts
    as the integer 0) can be sorted by Area as soon as it is shown. *)
Theorem integer_areas_sortable :
  forall data tree (descending : bool),
    well_formed data ->
    Forall (fun particle =>
              exists z, default (PyInt 0) (particle !! "area") = PyInt z)
           (all_triangles data) ->
    exists sorted,
      sortby (visualize_data (JsonList data) tree).1 Col_Area descending = Ok sorted.
Proof.
  intros data tree descending Hwf Hint.
  destruct (sortby_children (visualize_data (JsonList data) tree).1 Col_Area descending)
    as (sorted & Hs & _).
  - by apply NoDup_get_children_visualize_data.
  - intros _. apply numeric_areas_visualize_data; [done|].
    eapply Forall_impl; [exact Hint|]. intros p [z Hz]. unfold readable_area.
    rewrite Hz. apply readable_int.
  - by exists sorted.
Qed.

Lemma integer_areas_sortable_witness :
  exists sorted,
    sortby (visualize_data (JsonList anonymous) one_row_tree).1 Col_Area false
    = Ok sorted.
Proof.
  apply (integer_areas_sortable anonymous one_row_tree false).
  - apply well_formed_bool_decide. vm_compute. reflexivity.
  - repeat constructor; eexists; vm_compute; reflexivity.
Defined.

(** ** Reading the entry *)

Lemma starts_blank_lstrip s : starts_blank (lstrip s) = false.
Proof.
  induction s as [|c s IH]; [done|]. cbn [lstrip].
  destruct (py_isspace c) eqn:Hc; [done|]. cbn [starts_blank]. done.
Qed.

Lemma In_lstrip c s :
  In c (list_ascii_of_string (lstrip s)) -> In c (list_ascii_of_string s).
Proof.
  induction s as [|c' s IH]; [done|]. cbn [lstrip].
  destruct (py_isspace c'); [|done]. intros H. right. by apply IH.
Qed.

Lemma rstrip_cons c s :
  rstrip (String c s)
  = match rstrip s with
    | EmptyString => if py_isspace c then EmptyString else String c EmptyString
    | kept => String c kept
    end.
Proof. reflexivity. Qed.

Lemma ends_blank_rstrip s : ends_blank (rstrip s) = false.
Proof.
  induction s as [|c s IH]; [done|]. rewrite rstrip_cons.
  destruct (rstrip s) as [|c' kept].
  - destruct (py_isspace c) eqn:Hc; [done|]. cbn [ends_blank]. done.
  - exact IH.
Qed.

Lemma starts_blank_rstrip s : starts_blank s = false -> starts_blank (rstrip s) = false.
Proof.
  destruct s as [|c s]; [done|]. cbn [starts_blank]. intros Hc. rewrite rstrip_cons.
  destruct (rstrip s); [by rewrite Hc|done].
Qed.

Lemma In_rstrip c s :
  In c (list_ascii_of_string (rstrip s)) -> In c (list_ascii_of_string s).
Proof.
  induction s as [|c' s IH]; [done|]. rewrite rstrip_cons.
  destruct (rstrip s) as [|c'' kept].
  - destruct (py_isspace c'); [done|]. cbn. tauto.
  - cbn [list_ascii_of_string]. intros [->|H]; [by left|]. right. by apply IH.
Qed.

Lemma str_split_no_sep sep s :
  Forall (fun piece => ~ In sep (list_ascii_of_string piece)) (str_split sep s).
Proof.
  induction s as [|c s IH]; cbn [str_split].
  - repeat constructor. tauto.
  - destruct (Ascii.eqb c sep) eqn:Hc.
    + constructor; [cbn; tauto|done].
    + apply Ascii.eqb_neq in Hc.
      destruct (str_split sep s) as [|piece pieces].
      * repeat constructor. cbn. intros [?|[]]. congruence.
      * apply Forall_cons in IH as [Hp Hps]. constructor; [|done].
        cbn. intros [?|?]; [congruence|done].
Qed.

(** X18: every number that the handler hands to the server is not
    empty, has no comma and has no blank at either end. *)
Theorem parse_user_input_clean :
  forall user_input, Forall clean_number (parse_user_input user_input).
Proof.
  intros user_input. unfold parse_user_input. apply Forall_forall.
  intros num [Hne Hin]%list_elem_of_filter.
  apply (list_elem_of_fmap_1 strip) in Hin as (piece & -> & Hpiece).
  pose proof (str_split_no_sep ","%char user_input) as Hsep.
  rewrite Forall_forall in Hsep. specialize (Hsep piece Hpiece).
  unfold clean_number, strip. split; [done|]. split; [|split].
  - intros H. by apply Hsep, In_lstrip, In_rstrip.
  - apply starts_blank_rstrip, starts_blank_lstrip.
  - apply ends_blank_rstrip.
Qed.

Lemma lstrip_id s : starts_blank s = false -> lstrip s = s.
Proof. destruct s as [|c s]; [done|]. cbn. by intros ->. Qed.

Lemma rstrip_id s : ends_blank s = false -> rstrip s = s.
Proof.
  induction s as [|c s IH]; [done|]. rewrite rstrip_cons.
  destruct s as [|c' s].
  - cbn. by intros ->.
  - intros H. rewrite IH by exact H. done.
Qed.

Lemma strip_clean num : clean_number num -> strip num = num.
Proof.
  intros (_ & _ & Hs & He). unfold strip. by rewrite lstrip_id, rstrip_id.
Qed.

Lemma str_split_piece sep s :
  ~ In sep (list_ascii_of_string s) -> str_split sep s = [s].
Proof.
  induction s as [|c s IH]; [done|]. cbn [list_ascii_of_string str_split].
  intros H. destruct (Ascii.eqb c sep) eqn:Hc.
  - apply Ascii.eqb_eq in Hc. destruct H. by left.
  - rewrite IH; [done|]. intros Hin. apply H. by right.
Qed.

Lemma str_split_app sep s rest :
  ~ In sep (list_ascii_of_string s) ->
  str_split sep (s +:+ String sep rest) = s :: str_split sep rest.
Proof.
  induction s as [|c s IH]; cbn [list_ascii_of_string]; intros H.
  - change (EmptyString +:+ String sep rest) with (String sep rest).
    cbn [str_split]. by rewrite Ascii.eqb_refl.
  - change (String c s +:+ String sep rest) with (String c (s +:+ String sep rest)).
    cbn [str_split]. destruct (Ascii.eqb c sep) eqn:Hc.
    + apply Ascii.eqb_eq in Hc. destruct H. by left.
    + rewrite IH; [done|]. intros Hin. apply H. by right.
Qed.

Lemma str_split_concat tokens :
  Forall (fun num => ~ In ","%char (list_ascii_of_string num)) tokens ->
  tokens <> [] ->
  str_split ","%char (String.concat "," tokens) = tokens.
Proof.
  induction 1 as [|t tokens Ht _ IH]; [done|]. intros _.
  destruct tokens as [|t' tokens].
  - cbn [String.concat]. by apply str_split_piece.
  - change (String.concat "," (t :: t' :: tokens))
      with (t +:+ String ","%char (String.concat "," (t' :: tokens))).
    rewrite str_split_app by done. f_equal. by apply IH.
Qed.

(** X19: ASCII numbers that are clean (not empty, no comma, no blank at
    either end), written with commas between them, are read back as
    they are and in their order. *)
Theorem parse_user_input_concat :
  forall tokens,
    Forall ascii_text tokens ->
    Forall clean_number tokens ->
    parse_user_input (String.concat "," tokens) = tokens.
Proof.
  intros tokens _ Hclean. unfold parse_user_input.
  destruct tokens as [|t tokens]; [done|].
  rewrite str_split_concat; [|by eapply Forall_impl; [exact Hclean|intros ? (_ & ? & _)]|done].
  assert (map strip (t :: tokens) = t :: tokens) as ->.
  { clear -Hclean. induction Hclean as [|a l Ha _ IH]; [done|].
    cbn [map]. by rewrite IH, strip_clean. }
  clear -Hclean. induction Hclean as [|a l [Ha _] _ IH]; [done|].
  by rewrite filter_cons_True, IH.
Qed.

Lemma parse_user_input_concat_witness :
  parse_user_input (String.concat "," ["101036328"; "5 6"; "EE-7"])
  = ["101036328"; "5 6"; "EE-7"].
Proof.
  apply (parse_user_input_concat ["101036328"; "5 6"; "EE-7"]).
  - apply (bool_decide_unpack _). vm_compute. exact I.
  - repeat constructor; try discriminate; cbn; intuition discriminate.
Defined.

(** ** The button handler *)

Lemma lstrip_empty s :
  lstrip s = EmptyString
  <-> Forall (fun c => py_isspace c = true) (list_ascii_of_string s).
Proof.
  induction s as [|c s IH]; cbn [lstrip list_ascii_of_string].
  - split; [constructor|done].
  - destruct (py_isspace c) eqn:Hc.
    + rewrite IH. split; [by constructor|]. by intros [_ ?]%Forall_cons.
    + split; [done|]. intros [? _]%Forall_cons. congruence.
Qed.

Lemma strip_empty s :
  strip s = EmptyString
  <-> Forall (fun c => py_isspace c = true) (list_ascii_of_string s).
Proof.
  rewrite <- lstrip_empty. unfold strip. split.
  - intros H. pose proof (starts_blank_lstrip s) as Hs.
    destruct (lstrip s) as [|c rest]; [done|].
    cbn [starts_blank] in Hs. rewrite rstrip_cons in H.
    destruct (rstrip rest); [by rewrite Hs in H|done].
  - by intros ->.
Qed.

Lemma str_split_chars (Q : ascii -> Prop) sep s :
  Forall (fun piece => Forall Q (list_ascii_of_string piece)) (str_split sep s)
  <-> Forall (fun c => c = sep \/ Q c) (list_ascii_of_string s).
Proof.
  induction s as [|c s IH]; cbn [str_split list_ascii_of_string].
  - split; intros _; repeat constructor.
  - rewrite Forall_cons, <- IH. destruct (Ascii.eqb c sep) eqn:Hc.
    + apply Ascii.eqb_eq in Hc. rewrite Forall_cons. cbn [list_ascii_of_string].
      split; [intros [_ ?]; auto|]. intros [_ ?]. split; [constructor|done].
    + apply Ascii.eqb_neq in Hc. destruct (str_split sep s) as [|piece pieces].
      * rewrite Forall_singleton. cbn [list_ascii_of_string].
        rewrite Forall_singleton. split; [intros ?; split; [auto|constructor]|].
        intros [[?|?] _]; done.
      * rewrite !Forall_cons. cbn [list_ascii_of_string]. rewrite Forall_cons.
        split; [intros [[? ?] ?]; auto|]. intros [[?|?] [? ?]]; done.
Qed.

Lemma filter_nil_Forall {A} (P : A -> Prop) `{!forall a, Decision (P a)} (l : list A) :
  filter P l = [] <-> Forall (fun a => ~ P a) l.
Proof.
  induction l as [|a l IH]; [split; [constructor|done]|].
  rewrite filter_cons, Forall_cons, <- IH. destruct (decide (P a)); [|tauto].
  split; [done|]. by intros [? _].
Qed.

(** The handler finds no number exactly in the texts made of commas and
    blanks. *)
Lemma parse_user_input_nil user_input :
  parse_user_input user_input = [] <-> only_commas_and_blanks user_input.
Proof.
  unfold parse_user_input, only_commas_and_blanks.
  rewrite filter_nil_Forall, Forall_map,
    <- (str_split_chars (fun c => py_isspace c = true)).
  apply Forall_iff. intros piece. rewrite <- strip_empty.
  destruct (decide (strip piece = EmptyString)); tauto.
Qed.

(** X20: a text of commas and blanks only never reaches the server:
    whatever the server would answer, the handler leaves the table as it
    is and prints that there is no input (for the empty text) or that
    there are no valid numbers. *)
Theorem on_button_click_blank_input :
  forall get_data_from_api user_input tree,
    only_commas_and_blanks user_input ->
    on_button_click get_data_from_api user_input tree
    = (tree,
       Printed (match user_input with
                | EmptyString => "No input provided."
                | _ => "No valid numbers provided."
                end)).
Proof.
  intros api user_input tree Hblank%parse_user_input_nil.
  unfold on_button_click. rewrite Hblank. by destruct user_input.
Qed.

Lemma on_button_click_blank_input_witness :
  on_button_click server_one_roof " , ,, " one_row_tree
  = (one_row_tree, Printed "No valid numbers provided.").
Proof.
  apply (on_button_click_blank_input server_one_roof " , ,, " one_row_tree).
  unfold only_commas_and_blanks. cbn [list_ascii_of_string].
  repeat constructor; (by left) || (by right).
Defined.

(** X21: for an ASCII text the handler changes the table in one case
    only: the text holds a number, and the server answers the clean
    numbers of the text with a list of buildings that is not empty and
    in which every triangle has its coordinates; then it does what
    [visualize_data] does with that list.  In every other case the table
    is left as it was. *)
Theorem on_button_click_changes_table_only_with_data :
  forall get_data_from_api user_input tree,
    ascii_text user_input ->
    (on_button_click get_data_from_api user_input tree).1 = tree \/
    exists data,
      parse_user_input user_input <> [] /\
      get_data_from_api (parse_user_input user_input) = ReplyList data /\
      data <> [] /\ well_formed data /\
      on_button_click get_data_from_api user_input tree
      = visualize_data (JsonList data) tree.
Proof.
  intros api user_input tree _. unfold on_button_click.
  destruct user_input as [|c s]; [by left|].
  destruct (parse_user_input (String c s)) as [|num nums] eqn:Hp; [by left|].
  destruct (api (num :: nums)) as [|data|b] eqn:Ha; cbn [truthy reply_data].
  - by left.
  - destruct data as [|b data]; [by left|].
    destruct (decide (well_formed (b :: data))) as [Hwf|Hbad].
    + right. exists (b :: data). repeat split; done.
    + left. by destruct (visualize_data_Raise (b :: data) tree Hbad)
        as (? & ? & ? & _ & _ & _ & _ & ->).
  - left. by destruct b.
Qed.

Lemma on_button_click_changes_table_only_with_data_witness :
  (on_button_click server_one_roof " 101036328 ,, " one_row_tree).1 = one_row_tree \/
  exists data,
    parse_user_input " 101036328 ,, " <> [] /\
    server_one_roof (parse_user_input " 101036328 ,, ") = ReplyList data /\
    data <> [] /\ well_formed data /\
    on_button_click server_one_roof " 101036328 ,, " one_row_tree
    = visualize_data (JsonList data) one_row_tree.
Proof.
  apply (on_button_click_changes_table_only_with_data
           server_one_roof " 101036328 ,, " one_row_tree).
  apply (bool_decide_unpack _). vm_compute. exact I.
Defined.

Example on_button_click_runs :
  on_button_click server_one_roof " 101036328 ,, " empty_tree
  = visualize_data (JsonList one_roof) empty_tree /\
  on_button_click server_down "101036328" one_row_tree
  = (one_row_tree, Printed "No data received from the API.").
Proof. split; vm_compute; reflexivity. Qed.

(** ** The first clicks in a new window *)

Lemma visualize_data_heading data tree :
  well_formed data ->
  tv_heading (visualize_data (JsonList data) tree).1 = tv_heading tree.
Proof.
  intros Hwf. rewrite visualize_data_Ok by done. cbn [fst]. unfold update_treeview.
  pose proof (insert_all_frame (flat_map records data)
                (fold_left tree_delete (get_children tree) tree)) as (_ & -> & _).
  apply delete_all_frame.
Qed.

(** X23: in the window as [main] builds it, after a run has filled the
    table, the first click on a column header sorts ascending and the
    second click on it shows the same rows in the reverse order. *)
Theorem first_clicks_after_main :
  forall data col,
    well_formed data ->
    (col = Col_Area -> Forall readable_area (all_triangles data)) ->
    let shown := (visualize_data (JsonList data) main_treeview).1 in
    exists first second,
      heading_command shown col = Ok first /\
      sortby shown col false = Ok first /\
      heading_command first col = Ok second /\
      tv_children second = rev (tv_children first).
Proof.
  intros data col Hwf Hread shown.
  assert (NoDup (get_children shown)) as Hnd
      by (by apply NoDup_get_children_visualize_data).
  assert (col = Col_Area -> numeric_areas shown) as Hnum
      by (intros Hc; by apply numeric_areas_visualize_data, Hread).
  assert (tv_heading shown col = false) as Hflag
      by (subst shown; by rewrite visualize_data_heading).
  unfold heading_command. rewrite Hflag.
  destruct (sortby_children shown col false Hnd Hnum) as (s1 & Hs1 & Hc1 & Hh1).
  assert (tv_children s1 ≡ₚ tv_children shown) as Hp
      by (rewrite Hc1; apply list_sort_Permutation).
  assert (NoDup (get_children s1)) as Hnd1
      by (by apply (NoDup_get_children_Permutation shown)).
  assert (col = Col_Area -> numeric_areas s1) as Hnum1
      by (intros Hc; by apply (numeric_areas_Permutation shown), Hnum).
  rewrite Hs1.
  destruct (sortby_children s1 col (tv_heading s1 col) Hnd1 Hnum1)
    as (s2 & Hs2 & Hc2 & _).
  exists s1, s2. split; [done|]. split; [done|]. split; [done|].
  rewrite Hc2, Hh1. cbn [negb].
  rewrite (list_sort_rows_unique col true (tv_children s1) (tv_children shown) Hnd1 Hp).
  rewrite Hc1. by apply list_sort_rows_reverse.
Qed.

Lemma first_clicks_after_main_witness :
  let shown := (visualize_data (JsonList roof_then_floor) main_treeview).1 in
  exists first second,
    heading_command shown Col_Surface_Type = Ok first /\
    sortby shown Col_Surface_Type false = Ok first /\
    heading_command first Col_Surface_Type = Ok second /\
    tv_children second = rev (tv_children first).
Proof.
  apply (first_clicks_after_main roof_then_floor Col_Surface_Type).
  - apply well_formed_bool_decide. vm_compute. reflexivity.
  - discriminate.
Defined.
